(** * MySensors message format: a shallow embedding of [core/MyMessage.h]

    The header packs seven sub-byte fields into two [uint8_t] containers with
    the [BF_*] macros, and overlays the typed payload values on a packed
    union of [MAX_PAYLOAD + 1] bytes.  C integers are unbounded [Z] values
    here; a store into a [uint8_t] lvalue is written out as [uint8]. *)

From Stdlib Require Import ZArith List Bool Ascii String Lia.
Import ListNotations.
Local Open Scope Z_scope.

(** ** Protocol constants (MyMessage.h, lines 39-42) *)

Definition PROTOCOL_VERSION : Z := 2.
Definition MAX_MESSAGE_LENGTH : Z := 32.
Definition HEADER_SIZE : Z := 7.
Definition MAX_PAYLOAD : Z := MAX_MESSAGE_LENGTH - HEADER_SIZE.

(** ** Enumerations (lines 45-51 and 214-223) *)

Inductive mysensor_command : Set :=
  | C_PRESENTATION | C_SET | C_REQ | C_INTERNAL | C_STREAM.

Definition command_value (c : mysensor_command) : Z :=
  match c with
  | C_PRESENTATION => 0
  | C_SET => 1
  | C_REQ => 2
  | C_INTERNAL => 3
  | C_STREAM => 4
  end.

Inductive mysensor_payload : Set :=
  | P_STRING | P_BYTE | P_INT16 | P_UINT16
  | P_LONG32 | P_ULONG32 | P_CUSTOM | P_FLOAT32.

Definition payload_value (p : mysensor_payload) : Z :=
  match p with
  | P_STRING => 0
  | P_BYTE => 1
  | P_INT16 => 2
  | P_UINT16 => 3
  | P_LONG32 => 4
  | P_ULONG32 => 5
  | P_CUSTOM => 6
  | P_FLOAT32 => 7
  end.

(** ** Bitfield macros (lines 227-235) *)

(** Conversion to [uint8_t]: what a store into an 8-bit lvalue keeps. *)
Definition uint8 (z : Z) : Z := z mod 2 ^ 8.

Definition BIT (n : Z) : Z := Z.shiftl 1 n.
Definition BIT_MASK (len : Z) : Z := BIT len - 1.
Definition BF_MASK (start len : Z) : Z := Z.shiftl (BIT_MASK len) start.

Definition BF_PREP (x start len : Z) : Z :=
  Z.shiftl (Z.land x (BIT_MASK len)) start.

Definition BF_GET (y start len : Z) : Z :=
  Z.land (Z.shiftr y start) (BIT_MASK len).

(** The right-hand side of the assignment in [BF_SET], computed in [int]. *)
Definition BF_SET_rhs (y x start len : Z) : Z :=
  Z.lor (Z.land y (Z.lnot (BF_MASK start len))) (BF_PREP x start len).

(** [BF_SET(y, x, start, len)] assigns to [y]; both containers of the header
    are [uint8_t], so the new value of [y] is the right-hand side converted
    to [uint8_t]. *)
Definition BF_SET (y x start len : Z) : Z :=
  uint8 (BF_SET_rhs y x start len).

(** ** The message structure (lines 337-369) *)

Record MyMessage : Set := mkMyMessage {
  last : Z;
  sender : Z;
  destination : Z;
  version_length : Z;
  command_ack_payload : Z;
  type : Z;
  sensor : Z;
  (** the bytes of the packed payload union, [char data[MAX_PAYLOAD + 1]] *)
  data : list Z
}.

Definition with_version_length (m : MyMessage) (b : Z) : MyMessage :=
  mkMyMessage (last m) (sender m) (destination m) b (command_ack_payload m)
              (type m) (sensor m) (data m).

Definition with_command_ack_payload (m : MyMessage) (b : Z) : MyMessage :=
  mkMyMessage (last m) (sender m) (destination m) (version_length m) b
              (type m) (sensor m) (data m).

Definition with_data (m : MyMessage) (d : list Z) : MyMessage :=
  mkMyMessage (last m) (sender m) (destination m) (version_length m)
              (command_ack_payload m) (type m) (sensor m) d.

(** ** Getters and setters of the header bit fields (lines 238-273) *)

Definition mSetVersion (m : MyMessage) (v : Z) : MyMessage :=
  with_version_length m (BF_SET (version_length m) v 0 2).
Definition mGetVersion (m : MyMessage) : Z := BF_GET (version_length m) 0 2.

Definition mSetSigned (m : MyMessage) (s : Z) : MyMessage :=
  with_version_length m (BF_SET (version_length m) s 2 1).
Definition mGetSigned (m : MyMessage) : Z := BF_GET (version_length m) 2 1.

Definition mSetLength (m : MyMessage) (l : Z) : MyMessage :=
  with_version_length m (BF_SET (version_length m) l 3 5).
Definition mGetLength (m : MyMessage) : Z := BF_GET (version_length m) 3 5.

Definition mSetCommand (m : MyMessage) (c : Z) : MyMessage :=
  with_command_ack_payload m (BF_SET (command_ack_payload m) c 0 3).
Definition mGetCommand (m : MyMessage) : Z :=
  BF_GET (command_ack_payload m) 0 3.

Definition mSetRequestAck (m : MyMessage) (r : Z) : MyMessage :=
  with_command_ack_payload m (BF_SET (command_ack_payload m) r 3 1).
Definition mGetRequestAck (m : MyMessage) : Z :=
  BF_GET (command_ack_payload m) 3 1.

Definition mSetAck (m : MyMessage) (a : Z) : MyMessage :=
  with_command_ack_payload m (BF_SET (command_ack_payload m) a 4 1).
Definition mGetAck (m : MyMessage) : Z := BF_GET (command_ack_payload m) 4 1.

Definition mSetPayloadType (m : MyMessage) (pt : Z) : MyMessage :=
  with_command_ack_payload m (BF_SET (command_ack_payload m) pt 5 3).
Definition mGetPayloadType (m : MyMessage) : Z :=
  BF_GET (command_ack_payload m) 5 3.

(** The internal accessors act on the members of [*this]. *)
Definition miGetCommand (m : MyMessage) : Z :=
  BF_GET (command_ack_payload m) 0 3.

Definition miSetLength (m : MyMessage) (l : Z) : MyMessage :=
  with_version_length m (BF_SET (version_length m) l 3 5).
Definition miGetLength (m : MyMessage) : Z := BF_GET (version_length m) 3 5.

Definition miSetRequestAck (m : MyMessage) (r : Z) : MyMessage :=
  with_command_ack_payload m (BF_SET (command_ack_payload m) r 3 1).
Definition miGetRequestAck (m : MyMessage) : Z :=
  BF_GET (command_ack_payload m) 3 1.

Definition miSetAck (m : MyMessage) (a : Z) : MyMessage :=
  with_command_ack_payload m (BF_SET (command_ack_payload m) a 4 1).
Definition miGetAck (m : MyMessage) : Z := BF_GET (command_ack_payload m) 4 1.

Definition miSetPayloadType (m : MyMessage) (pt : Z) : MyMessage :=
  with_command_ack_payload m (BF_SET (command_ack_payload m) pt 5 3).
Definition miGetPayloadType (m : MyMessage) : Z :=
  BF_GET (command_ack_payload m) 5 3.

(** ** The payload union (lines 354-369)

    All members of the packed union start at its first byte, and [fPrecision]
    follows the four bytes of [fValue].  The header relies on the native
    object representation of the multi-byte members, so the byte order is a
    parameter of the views. *)

Inductive byte_order : Set := LittleEndian | BigEndian.

Fixpoint le_bytes (n : nat) (v : Z) : list Z :=
  match n with
  | O => []
  | S k => uint8 v :: le_bytes k (Z.shiftr v 8)
  end.

Fixpoint le_value (bs : list Z) : Z :=
  match bs with
  | [] => 0
  | b :: t => Z.lor b (Z.shiftl (le_value t) 8)
  end.

(** Object representation of an [n]-byte integer, and the value it holds. *)
Definition object_bytes (order : byte_order) (n : nat) (v : Z) : list Z :=
  match order with
  | LittleEndian => le_bytes n v
  | BigEndian => rev (le_bytes n v)
  end.

Definition object_value (order : byte_order) (bs : list Z) : Z :=
  match order with
  | LittleEndian => le_value bs
  | BigEndian => le_value (rev bs)
  end.

(** Reading an unsigned [bits]-wide pattern as a two's complement integer. *)
Definition to_signed (bits u : Z) : Z :=
  if u <? 2 ^ (bits - 1) then u else u - 2 ^ bits.

(** Writing a member overwrites the leading bytes of the union and leaves
    the others as they were. *)
Definition store (bs d : list Z) : list Z := bs ++ skipn (List.length bs) d.

Definition bValue (m : MyMessage) : Z := nth 0 (data m) 0.
Definition uiValue (order : byte_order) (m : MyMessage) : Z :=
  object_value order (firstn 2 (data m)).
Definition iValue (order : byte_order) (m : MyMessage) : Z :=
  to_signed 16 (object_value order (firstn 2 (data m))).
Definition ulValue (order : byte_order) (m : MyMessage) : Z :=
  object_value order (firstn 4 (data m)).
Definition lValue (order : byte_order) (m : MyMessage) : Z :=
  to_signed 32 (object_value order (firstn 4 (data m))).
(** A [float] is carried as the 32-bit word of its object representation:
    the message only stores and reloads it. *)
Definition fValue (order : byte_order) (m : MyMessage) : Z :=
  object_value order (firstn 4 (data m)).
Definition fPrecision (m : MyMessage) : Z := nth 4 (data m) 0.

(** The raw view of the whole message,
    [uint8_t array[HEADER_SIZE + MAX_PAYLOAD + 1]] (line 374). *)
Definition array (m : MyMessage) : list Z :=
  [last m; sender m; destination m; version_length m;
   command_ack_payload m; type m; sensor m] ++ data m.

(** The values the C types of the structure admit. *)
Definition is_uint8 (z : Z) : bool := (0 <=? z) && (z <? 256).

Definition well_formed (m : MyMessage) : bool :=
  forallb is_uint8 (array m)
  && (Z.of_nat (List.length (data m)) =? MAX_PAYLOAD + 1).

(** ** Member functions declared in the class (lines 285-328)

    The header declares them; their bodies are defined in another
    translation unit. *)

(** Modelled from the spec: the body of the constructor [MyMessage()], which
    the specification describes as producing all-zero fields. *)
Definition MyMessage_ctor : MyMessage :=
  mkMyMessage 0 0 0 0 0 0 0 (repeat 0 (Z.to_nat (MAX_PAYLOAD + 1))).

(** Modelled from the spec: the body of [MyMessage(uint8_t sensor, uint8_t
    type)]: the two fields are pre-set, the command is the set command and
    the payload type is string. *)
Definition MyMessage_ctor2 (_sensor _type : Z) : MyMessage :=
  let m := mkMyMessage 0 0 0 0 0 (uint8 _type) (uint8 _sensor)
                       (repeat 0 (Z.to_nat (MAX_PAYLOAD + 1))) in
  mSetPayloadType (mSetCommand m (command_value C_SET))
                  (payload_value P_STRING).

(** Modelled from the spec: the body of [getCommand()], which extracts the
    3-bit command sub-field. *)
Definition getCommand (m : MyMessage) : Z := uint8 (miGetCommand m).

(** Modelled from the spec: the body of [isAck()], which extracts the 1-bit
    ack-flag sub-field. *)
Definition isAck (m : MyMessage) : bool := negb (miGetAck m =? 0).

(** Modelled from the spec: the body of the fluent setter [setType], which
    mutates one field in place. *)
Definition setType (m : MyMessage) (_type : Z) : MyMessage :=
  mkMyMessage (last m) (sender m) (destination m) (version_length m)
              (command_ack_payload m) (uint8 _type) (sensor m) (data m).

(** Modelled from the spec: the body of the fluent setter [setSensor]. *)
Definition setSensor (m : MyMessage) (_sensor : Z) : MyMessage :=
  mkMyMessage (last m) (sender m) (destination m) (version_length m)
              (command_ack_payload m) (type m) (uint8 _sensor) (data m).

(** Modelled from the spec: the body of the fluent setter
    [setDestination]. *)
Definition setDestination (m : MyMessage) (_destination : Z) : MyMessage :=
  mkMyMessage (last m) (sender m) (uint8 _destination) (version_length m)
              (command_ack_payload m) (type m) (sensor m) (data m).

(** The argument lists of the nine [set] overloads (lines 320-328).  A text
    is the list of its characters before the terminator. *)
Inductive set_argument : Set :=
  | set_custom (payload : list Z) (length : Z)
  | set_string (value : list Z)
  | set_float (value : Z) (decimals : Z)
  | set_bool (value : bool)
  | set_uint8 (value : Z)
  | set_uint32 (value : Z)
  | set_int32 (value : Z)
  | set_uint16 (value : Z)
  | set_int16 (value : Z).

(** Modelled from the spec: the payload type tag each [set] overload
    records, the tag matching the type of its argument. *)
Definition set_type (a : set_argument) : mysensor_payload :=
  match a with
  | set_custom _ _ => P_CUSTOM
  | set_string _ => P_STRING
  | set_float _ _ => P_FLOAT32
  | set_bool _ => P_BYTE
  | set_uint8 _ => P_BYTE
  | set_uint32 _ => P_ULONG32
  | set_int32 _ => P_LONG32
  | set_uint16 _ => P_UINT16
  | set_int16 _ => P_INT16
  end.

(** Modelled from the spec: the length each [set] overload records, the byte
    width of the stored representation (1 for byte and bool, 2 for the
    16-bit forms, 4 for the 32-bit forms, the count for string and custom).
    The length is the actual payload byte count and never exceeds the
    capacity of the region, so of a longer text or buffer it counts the
    [MAX_PAYLOAD] bytes that are stored. *)
Definition set_width (a : set_argument) : Z :=
  match a with
  | set_custom _ length => Z.min (uint8 length) MAX_PAYLOAD
  | set_string value => Z.min (Z.of_nat (List.length value)) MAX_PAYLOAD
  | set_float _ _ => 4
  | set_bool _ | set_uint8 _ => 1
  | set_uint32 _ | set_int32 _ => 4
  | set_uint16 _ | set_int16 _ => 2
  end.

(** Modelled from the spec: the native byte pattern each [set] overload
    stores.  The region holds [MAX_PAYLOAD] bytes besides the terminator of
    a text; of a longer text or buffer the bytes that fit are kept. *)
Definition set_bytes (order : byte_order) (a : set_argument) : list Z :=
  match a with
  | set_custom payload length =>
      firstn (Z.to_nat (Z.min (uint8 length) MAX_PAYLOAD)) (map uint8 payload)
  | set_string value =>
      firstn (Z.to_nat MAX_PAYLOAD) (map uint8 value) ++ [0]
  | set_float value decimals =>
      object_bytes order 4 value ++ [uint8 decimals]
  | set_bool value => [if value then 1 else 0]
  | set_uint8 value => [uint8 value]
  | set_uint32 value | set_int32 value => object_bytes order 4 value
  | set_uint16 value | set_int16 value => object_bytes order 2 value
  end.

(** Modelled from the spec: the bodies of the [set] overloads.  Writing a
    typed value stores its native byte pattern into the region, sets the
    payload type to match and sets the length to the byte width of the
    representation, through the internal setters of the header. *)
Definition set (order : byte_order) (a : set_argument) (m : MyMessage)
  : MyMessage :=
  let m1 := miSetPayloadType m (payload_value (set_type a)) in
  let m2 := miSetLength m1 (set_width a) in
  with_data m2 (store (set_bytes order a) (data m2)).

(** Modelled from the spec: the body of [getBool()]; like every typed
    getter it reinterprets the stored bytes as requested and checks
    nothing. *)
Definition getBool (m : MyMessage) : bool := negb (bValue m =? 0).

(** Modelled from the spec: the body of [getByte()]. *)
Definition getByte (m : MyMessage) : Z := bValue m.

(** Modelled from the spec: the body of [getFloat()]. *)
Definition getFloat (order : byte_order) (m : MyMessage) : Z := fValue order m.

(** Modelled from the spec: the body of [getInt()]. *)
Definition getInt (order : byte_order) (m : MyMessage) : Z := iValue order m.

(** Modelled from the spec: the body of [getUInt()]. *)
Definition getUInt (order : byte_order) (m : MyMessage) : Z := uiValue order m.

(** Modelled from the spec: the body of [getLong()]. *)
Definition getLong (order : byte_order) (m : MyMessage) : Z := lValue order m.

(** Modelled from the spec: the body of [getULong()]. *)
Definition getULong (order : byte_order) (m : MyMessage) : Z :=
  ulValue order m.


(** The messages a caller builds through the class interface: a constructor,
    then fluent setters, header-field setters other than the length, and
    [set] calls. *)
Inductive built (order : byte_order) : MyMessage -> Prop :=
  | built_ctor : built order MyMessage_ctor
  | built_ctor2 s t : built order (MyMessage_ctor2 s t)
  | built_setType m t : built order m -> built order (setType m t)
  | built_setSensor m s : built order m -> built order (setSensor m s)
  | built_setDestination m d :
      built order m -> built order (setDestination m d)
  | built_mSetVersion m v : built order m -> built order (mSetVersion m v)
  | built_mSetSigned m s : built order m -> built order (mSetSigned m s)
  | built_mSetCommand m c : built order m -> built order (mSetCommand m c)
  | built_mSetRequestAck m r :
      built order m -> built order (mSetRequestAck m r)
  | built_mSetAck m a : built order m -> built order (mSetAck m a)
  | built_mSetPayloadType m p :
      built order m -> built order (mSetPayloadType m p)
  | built_set m a : built order m -> built order (set order a m).

(** ** Hex rendering (lines 289 and 296) *)

(** Modelled from the spec: the body of [i2h], the nibble-to-character
    helper mapping 0-15 to '0'-'9','a'-'f'. *)
Definition i2h (i : Z) : ascii :=
  if i <=? 9 then ascii_of_nat (Z.to_nat (48 + i))
  else ascii_of_nat (Z.to_nat (97 + (i - 10))).

(** Modelled from the spec: the inverse of the nibble mapping, on which the
    hex-to-message direction rests; the header declares no such function. *)
Definition h2i (c : ascii) : option Z :=
  let n := Z.of_nat (nat_of_ascii c) in
  if (48 <=? n) && (n <=? 57) then Some (n - 48)
  else if (97 <=? n) && (n <=? 102) then Some (n - 97 + 10)
  else None.

(** Modelled from the spec: the hex form of a byte sequence, one two-digit
    group per byte, most-significant nibble first. *)
Fixpoint hex_encode (bs : list Z) : string :=
  match bs with
  | [] => EmptyString
  | b :: t =>
      String (i2h (Z.shiftr b 4)) (String (i2h (Z.land b 15)) (hex_encode t))
  end.

(** Modelled from the spec: the inverse direction, absent from the header:
    each byte is reconstructed from two consecutive hex characters. *)
Fixpoint hex_decode (s : string) : option (list Z) :=
  match s with
  | EmptyString => Some []
  | String c1 (String c2 t) =>
      match h2i c1, h2i c2, hex_decode t with
      | Some h, Some l, Some bs => Some (Z.lor (Z.shiftl h 4) l :: bs)
      | _, _, _ => None
      end
  | String _ EmptyString => None
  end.

(** Modelled from the spec: the transmitted bytes, the header followed by
    exactly [length] payload bytes. *)
Definition wire_bytes (m : MyMessage) : list Z :=
  firstn (Z.to_nat (HEADER_SIZE + miGetLength m)) (array m).

(** Modelled from the spec: the body of [getStream], which renders the
    entire message, header fields followed by the payload bytes, as hex. *)
Definition getStream (m : MyMessage) : string := hex_encode (wire_bytes m).

(** ** Layout of a header field

    [field_at container update get put start len]: the getter [get] reads
    the [len] bits of [container] from bit [start] on, and the setter [put]
    writes exactly those bits, leaving the other bits of the container and
    the other members of the message as they were. *)
Definition field_at (container : MyMessage -> Z)
    (update : MyMessage -> Z -> MyMessage)
    (get : MyMessage -> Z) (put : MyMessage -> Z -> MyMessage)
    (start len : Z) : Prop :=
  (forall m i, 0 <= i ->
     Z.testbit (get m) i = (i <? len) && Z.testbit (container m) (start + i))
  /\ (forall m v j, 0 <= j < 8 ->
        Z.testbit (container (put m v)) j =
        if (start <=? j) && (j <? start + len)
        then Z.testbit v (j - start) else Z.testbit (container m) j)
  /\ (forall m v, 0 <= container (put m v) < 2 ^ 8)
  /\ (forall m v, put m v = update m (container (put m v))).

(** ** The enumerations of message sub-types (lines 54-211)

    An enumeration is kept as its list of enumerators in declaration order,
    each with its explicit initialiser when it has one.  C gives an
    enumerator without initialiser the value of the previous one plus one,
    and 0 to the first. *)

Fixpoint enum_values_from (next : Z) (decl : list (string * option Z))
  : list (string * Z) :=
  match decl with
  | [] => []
  | (name, init) :: rest =>
      let v := match init with Some k => k | None => next end in
      (name, v) :: enum_values_from (v + 1) rest
  end.

Definition enum_values (decl : list (string * option Z))
  : list (string * Z) :=
  enum_values_from 0 decl.

(** The value of an enumerator, looked up by name. *)
Fixpoint enum_lookup (name : string) (vs : list (string * Z)) : option Z :=
  match vs with
  | [] => None
  | (n, v) :: rest => if String.eqb name n then Some v else enum_lookup name rest
  end.

Definition enum_value (decl : list (string * option Z)) (name : string)
  : option Z :=
  enum_lookup name (enum_values decl).

(** The enumerators that carry an explicit initialiser, with the name of the
    enumerator declared just before each of them. *)
Fixpoint enum_initialised (prev : option string)
    (decl : list (string * option Z)) : list (string * option string) :=
  match decl with
  | [] => []
  | (name, Some _) :: rest =>
      (name, prev) :: enum_initialised (Some name) rest
  | (name, None) :: rest => enum_initialised (Some name) rest
  end.

(** The values of the enumerators declared without an initialiser. *)
Definition enum_plain_values (decl : list (string * option Z)) : list Z :=
  map snd
    (filter (fun e => negb (existsb (fun i => String.eqb (fst e) (fst i))
                              (enum_initialised None decl)))
            (enum_values decl)).

Local Open Scope string_scope.

(** Type of sensor, used when presenting sensors (lines 54-96). *)
Definition mysensor_sensor : list (string * option Z) :=
  [("S_DOOR", None); ("S_MOTION", None); ("S_SMOKE", None); ("S_LIGHT", None);
   ("S_BINARY", Some 3); ("S_DIMMER", None); ("S_COVER", None);
   ("S_TEMP", None); ("S_HUM", None); ("S_BARO", None); ("S_WIND", None);
   ("S_RAIN", None); ("S_UV", None); ("S_WEIGHT", None); ("S_POWER", None);
   ("S_HEATER", None); ("S_DISTANCE", None); ("S_LIGHT_LEVEL", None);
   ("S_ARDUINO_NODE", None); ("S_ARDUINO_REPEATER_NODE", None);
   ("S_LOCK", None); ("S_IR", None); ("S_WATER", None);
   ("S_AIR_QUALITY", None); ("S_CUSTOM", None); ("S_DUST", None);
   ("S_SCENE_CONTROLLER", None); ("S_RGB_LIGHT", None);
   ("S_RGBW_LIGHT", None); ("S_COLOR_SENSOR", None); ("S_HVAC", None);
   ("S_MULTIMETER", None); ("S_SPRINKLER", None); ("S_WATER_LEAK", None);
   ("S_SOUND", None); ("S_VIBRATION", None); ("S_MOISTURE", None);
   ("S_INFO", None); ("S_GAS", None); ("S_GPS", None);
   ("S_WATER_QUALITY", None)].

(** Type of sensor data, for set, req and ack messages (lines 99-165). *)
Definition mysensor_data : list (string * option Z) :=
  [("V_TEMP", None); ("V_HUM", None); ("V_STATUS", None); ("V_LIGHT", Some 2);
   ("V_PERCENTAGE", None); ("V_DIMMER", Some 3); ("V_PRESSURE", None);
   ("V_FORECAST", None); ("V_RAIN", None); ("V_RAINRATE", None);
   ("V_WIND", None); ("V_GUST", None); ("V_DIRECTION", None); ("V_UV", None);
   ("V_WEIGHT", None); ("V_DISTANCE", None); ("V_IMPEDANCE", None);
   ("V_ARMED", None); ("V_TRIPPED", None); ("V_WATT", None); ("V_KWH", None);
   ("V_SCENE_ON", None); ("V_SCENE_OFF", None); ("V_HEATER", None);
   ("V_HVAC_FLOW_STATE", Some 21); ("V_HVAC_SPEED", None);
   ("V_LIGHT_LEVEL", None); ("V_VAR1", None); ("V_VAR2", None);
   ("V_VAR3", None); ("V_VAR4", None); ("V_VAR5", None); ("V_UP", None);
   ("V_DOWN", None); ("V_STOP", None); ("V_IR_SEND", None);
   ("V_IR_RECEIVE", None); ("V_FLOW", None); ("V_VOLUME", None);
   ("V_LOCK_STATUS", None); ("V_LEVEL", None); ("V_VOLTAGE", None);
   ("V_CURRENT", None); ("V_RGB", None); ("V_RGBW", None); ("V_ID", None);
   ("V_UNIT_PREFIX", None); ("V_HVAC_SETPOINT_COOL", None);
   ("V_HVAC_SETPOINT_HEAT", None); ("V_HVAC_FLOW_MODE", None);
   ("V_TEXT", None); ("V_CUSTOM", None); ("V_POSITION", None);
   ("V_IR_RECORD", None); ("V_PH", None); ("V_ORP", None); ("V_EC", None)].

(** Type of internal messages (lines 169-200). *)
Definition mysensor_internal : list (string * option Z) :=
  [("I_BATTERY_LEVEL", None); ("I_TIME", None); ("I_VERSION", None);
   ("I_ID_REQUEST", None); ("I_ID_RESPONSE", None);
   ("I_INCLUSION_MODE", None); ("I_CONFIG", None); ("I_FIND_PARENT", None);
   ("I_FIND_PARENT_RESPONSE", None); ("I_LOG_MESSAGE", None);
   ("I_CHILDREN", None); ("I_SKETCH_NAME", None); ("I_SKETCH_VERSION", None);
   ("I_REBOOT", None); ("I_GATEWAY_READY", None);
   ("I_SIGNING_PRESENTATION", None); ("I_NONCE_REQUEST", None);
   ("I_NONCE_RESPONSE", None); ("I_HEARTBEAT", None);
   ("I_PRESENTATION", None); ("I_DISCOVER", None);
   ("I_DISCOVER_RESPONSE", None); ("I_HEARTBEAT_RESPONSE", None);
   ("I_LOCKED", None); ("I_PING", None); ("I_PONG", None);
   ("I_REGISTER_REQUEST", None); ("I_REGISTER_RESPONSE", None);
   ("I_DEBUG", None)].

(** Type of data stream, for streamed messages (lines 204-211). *)
Definition mysensor_stream : list (string * option Z) :=
  [("ST_FIRMWARE_CONFIG_REQUEST", None);
   ("ST_FIRMWARE_CONFIG_RESPONSE", None); ("ST_FIRMWARE_REQUEST", None);
   ("ST_FIRMWARE_RESPONSE", None); ("ST_SOUND", None); ("ST_IMAGE", None)].

Local Close Scope string_scope.

(** ** Further members of the payload union (lines 364-367)

    The presentation structure overlays [version] on the first byte of the
    union and [sensorType] on the second. *)
Definition version (m : MyMessage) : Z := nth 0 (data m) 0.
Definition sensorType (m : MyMessage) : Z := nth 1 (data m) 0.

(** The seven header sub-fields, in the order of the accessor macros. *)
Definition header_fields (m : MyMessage) : list Z :=
  [mGetVersion m; mGetSigned m; mGetLength m; mGetCommand m;
   mGetRequestAck m; mGetAck m; mGetPayloadType m].

(** * Properties of the bitfield macros *)

Section BitfieldCodec.

Lemma BIT_MASK_ones (len : Z) : BIT_MASK len = Z.ones len.
Proof. unfold BIT_MASK, BIT, Z.ones. now rewrite Z.sub_1_r. Qed.

Lemma testbit_BF_GET (y start len i : Z) :
  0 <= start -> 0 <= len -> 0 <= i ->
  Z.testbit (BF_GET y start len) i = (i <? len) && Z.testbit y (i + start).
Proof.
  intros Hs Hl Hi. unfold BF_GET.
  rewrite BIT_MASK_ones, Z.land_spec, Z.shiftr_spec by assumption.
  rewrite Z.testbit_ones_nonneg by assumption.
  apply andb_comm.
Qed.

Lemma testbit_BF_MASK (start len j : Z) :
  0 <= start -> 0 <= len -> 0 <= j ->
  Z.testbit (BF_MASK start len) j = (start <=? j) && (j <? start + len).
Proof.
  intros Hs Hl Hj. unfold BF_MASK.
  rewrite BIT_MASK_ones, Z.shiftl_spec by assumption.
  destruct (Z.leb_spec start j) as [Hle | Hlt].
  - rewrite Z.testbit_ones_nonneg by lia.
    cbn [andb]. destruct (Z.ltb_spec (j - start) len), (Z.ltb_spec j (start + len));
      (reflexivity || lia).
  - now rewrite Z.testbit_neg_r by lia.
Qed.

Lemma testbit_BF_PREP (x start len j : Z) :
  0 <= start -> 0 <= len -> 0 <= j ->
  Z.testbit (BF_PREP x start len) j =
  (start <=? j) && (j <? start + len) && Z.testbit x (j - start).
Proof.
  intros Hs Hl Hj. unfold BF_PREP.
  rewrite BIT_MASK_ones, Z.shiftl_spec by assumption.
  destruct (Z.leb_spec start j) as [Hle | Hlt].
  - rewrite Z.land_spec, Z.testbit_ones_nonneg by lia.
    cbn [andb]. rewrite andb_comm. f_equal.
    destruct (Z.ltb_spec (j - start) len), (Z.ltb_spec j (start + len));
      (reflexivity || lia).
  - now rewrite Z.testbit_neg_r by lia.
Qed.

Lemma testbit_uint8 (z j : Z) :
  0 <= j -> Z.testbit (uint8 z) j = (j <? 8) && Z.testbit z j.
Proof.
  intros Hj. unfold uint8.
  rewrite Z.testbit_mod_pow2 by lia. reflexivity.
Qed.

(** Bit [j] of the value [BF_SET] computes: inside the field it is bit
    [j - start] of the inserted value, outside it is the old bit. *)
Lemma testbit_BF_SET_rhs (y x start len j : Z) :
  0 <= start -> 0 <= len -> 0 <= j ->
  Z.testbit (BF_SET_rhs y x start len) j =
  if (start <=? j) && (j <? start + len)
  then Z.testbit x (j - start) else Z.testbit y j.
Proof.
  intros Hs Hl Hj. unfold BF_SET_rhs.
  rewrite Z.lor_spec, Z.land_spec, Z.lnot_spec by assumption.
  rewrite testbit_BF_MASK, testbit_BF_PREP by assumption.
  destruct ((start <=? j) && (j <? start + len)); cbn [negb andb orb].
  - now rewrite andb_false_r.
  - now rewrite andb_true_r, orb_false_r.
Qed.

(** The same for the container after the store, which keeps eight bits. *)
Lemma testbit_BF_SET (y x start len j : Z) :
  0 <= start -> 0 <= len -> 0 <= j ->
  Z.testbit (BF_SET y x start len) j =
  (j <? 8) && (if (start <=? j) && (j <? start + len)
               then Z.testbit x (j - start) else Z.testbit y j).
Proof.
  intros Hs Hl Hj. unfold BF_SET.
  rewrite testbit_uint8 by assumption.
  now rewrite testbit_BF_SET_rhs.
Qed.

Lemma uint8_range (z : Z) : 0 <= uint8 z < 2 ^ 8.
Proof. unfold uint8. apply Z.mod_pos_bound. lia. Qed.

Lemma BF_SET_range (y x start len : Z) : 0 <= BF_SET y x start len < 2 ^ 8.
Proof. apply uint8_range. Qed.

Lemma BF_GET_mod (y start len : Z) :
  0 <= len -> BF_GET y start len = Z.shiftr y start mod 2 ^ len.
Proof.
  intros Hl. unfold BF_GET. rewrite BIT_MASK_ones. now apply Z.land_ones.
Qed.

(** Reading a field back gives the low [len] bits of what was inserted. *)
Lemma BF_GET_BF_SET_mod (y v start len : Z) :
  0 <= start -> 0 <= len -> start + len <= 8 ->
  BF_GET (BF_SET y v start len) start len = v mod 2 ^ len.
Proof.
  intros Hs Hl Hfit. apply Z.bits_inj'. intros i Hi.
  rewrite testbit_BF_GET, testbit_BF_SET, Z.testbit_mod_pow2 by lia.
  destruct (Z.ltb_spec i len) as [Hlt | Hge]; cbn [andb]; [ | reflexivity ].
  replace (i + start <? 8) with true by (symmetry; apply Z.ltb_lt; lia).
  replace (start <=? i + start) with true by (symmetry; apply Z.leb_le; lia).
  replace (i + start <? start + len) with true
    by (symmetry; apply Z.ltb_lt; lia).
  cbn [andb]. f_equal. lia.
Qed.

(** A field does not overlap the bits of a field that lies beside it. *)
Lemma BF_GET_BF_SET_other (y x s1 l1 s2 l2 : Z) :
  0 <= s1 -> 0 <= l1 -> 0 <= s2 -> 0 <= l2 -> s2 + l2 <= 8 ->
  s2 + l2 <= s1 \/ s1 + l1 <= s2 ->
  BF_GET (BF_SET y x s1 l1) s2 l2 = BF_GET y s2 l2.
Proof.
  intros Hs1 Hl1 Hs2 Hl2 Hfit Hsep. apply Z.bits_inj'. intros i Hi.
  rewrite !testbit_BF_GET, testbit_BF_SET by lia.
  destruct (Z.ltb_spec i l2) as [Hlt | Hge]; cbn [andb]; [ | reflexivity ].
  replace (i + s2 <? 8) with true by (symmetry; apply Z.ltb_lt; lia).
  replace ((s1 <=? i + s2) && (i + s2 <? s1 + l1)) with false; [ reflexivity | ].
  symmetry. apply andb_false_iff.
  destruct Hsep; [ left; apply Z.leb_gt | right; apply Z.ltb_ge ]; lia.
Qed.

End BitfieldCodec.

(** C1: for every container, every offset [start] and width [len] with
    [start + len <= 8], and every value [v < 2^len], extracting the field
    after inserting [v] returns [v]; this holds of the [uint8_t] container
    after the store and of the value the macro computes before it. *)
Theorem BF_GET_BF_SET (y v start len : Z) :
  0 <= start -> 0 <= len -> start + len <= 8 -> 0 <= v < 2 ^ len ->
  BF_GET (BF_SET y v start len) start len = v
  /\ BF_GET (BF_SET_rhs y v start len) start len = v.
Proof.
  intros Hs Hl Hfit Hv. split.
  - rewrite BF_GET_BF_SET_mod by assumption.
    now apply Z.mod_small.
  - rewrite <- (Z.mod_small v (2 ^ len)) at 2 by assumption.
    apply Z.bits_inj'. intros i Hi.
    rewrite testbit_BF_GET, testbit_BF_SET_rhs, Z.testbit_mod_pow2 by lia.
    destruct (Z.ltb_spec i len) as [Hlt | Hge]; cbn [andb]; [ | reflexivity ].
    replace (start <=? i + start) with true by (symmetry; apply Z.leb_le; lia).
    replace (i + start <? start + len) with true
      by (symmetry; apply Z.ltb_lt; lia).
    cbn [andb]. f_equal. lia.
Qed.

Lemma BF_GET_BF_SET_witness :
  (3 + 5 <= 8 /\ 0 <= 19 < 2 ^ 5)
  /\ BF_GET (BF_SET 173 19 3 5) 3 5 = 19.
Proof.
  split; [ cbn; lia | ].
  apply (BF_GET_BF_SET 173 19 3 5); cbn; lia.
Defined.

(** C2: for every container and every field of the container, a value
    [v >= 2^len] is truncated without any error branch: inserting it and
    extracting the field returns [v mod 2^len], and the container is the one
    that inserting [v mod 2^len] gives. *)
Theorem BF_SET_truncates (y v start len : Z) :
  0 <= start -> 0 <= len -> start + len <= 8 -> 2 ^ len <= v ->
  BF_GET (BF_SET y v start len) start len = v mod 2 ^ len
  /\ BF_SET y v start len = BF_SET y (v mod 2 ^ len) start len.
Proof.
  intros Hs Hl Hfit _. split.
  - now apply BF_GET_BF_SET_mod.
  - apply Z.bits_inj'. intros j Hj.
    rewrite !testbit_BF_SET by assumption. f_equal.
    destruct (Z.leb_spec start j) as [Hle | ]; cbn [andb]; [ | reflexivity ].
    destruct (Z.ltb_spec j (start + len)) as [Hlt | ]; [ | reflexivity ].
    rewrite Z.testbit_mod_pow2 by assumption.
    replace (j - start <? len) with true by (symmetry; apply Z.ltb_lt; lia).
    reflexivity.
Qed.

Lemma BF_SET_truncates_witness :
  (3 + 5 <= 8 /\ 2 ^ 5 <= 45)
  /\ BF_GET (BF_SET 64 45 3 5) 3 5 = 13
  /\ BF_SET 64 45 3 5 = BF_SET 64 13 3 5.
Proof.
  split; [ cbn; lia | ].
  apply (BF_SET_truncates 64 45 3 5); cbn; lia.
Defined.

(** C9: insertion overwrites: inserting [v1] and then [v2] into the same
    field gives the container that inserting [v2] alone gives; in particular
    inserting the same value twice is the same as inserting it once. *)
Theorem BF_SET_BF_SET (y v1 v2 start len : Z) :
  0 <= start -> 0 <= len ->
  BF_SET (BF_SET y v1 start len) v2 start len = BF_SET y v2 start len
  /\ BF_SET (BF_SET y v1 start len) v1 start len = BF_SET y v1 start len.
Proof.
  intros Hs Hl.
  assert (Hlast : forall a b,
             BF_SET (BF_SET y a start len) b start len = BF_SET y b start len).
  { intros a b. apply Z.bits_inj'. intros j Hj.
    rewrite !testbit_BF_SET by assumption.
    destruct ((start <=? j) && (j <? start + len)); [ reflexivity | ].
    now rewrite andb_assoc, andb_diag. }
  split; apply Hlast.
Qed.

Lemma BF_SET_BF_SET_witness :
  BF_SET (BF_SET 255 5 0 3) 2 0 3 = BF_SET 255 2 0 3
  /\ BF_SET (BF_SET 255 5 0 3) 5 0 3 = BF_SET 255 5 0 3.
Proof. apply (BF_SET_BF_SET 255 5 2 0 3); lia. Defined.

(** C10: an extracted field is bounded by its width whatever the container
    holds: [BF_GET y start len < 2^len]; the command is below 8, the length
    below 32, and the ack, ack-request and signed flags are 0 or 1. *)
Theorem BF_GET_bounded :
  (forall y start len, 0 <= len -> 0 <= BF_GET y start len < 2 ^ len)
  /\ (forall m,
        0 <= mGetCommand m < 8 /\ 0 <= miGetCommand m < 8
        /\ 0 <= getCommand m < 8
        /\ 0 <= mGetLength m < 32 /\ 0 <= miGetLength m < 32
        /\ 0 <= mGetVersion m < 4 /\ 0 <= mGetPayloadType m < 8
        /\ (mGetAck m = 0 \/ mGetAck m = 1)
        /\ (mGetRequestAck m = 0 \/ mGetRequestAck m = 1)
        /\ (mGetSigned m = 0 \/ mGetSigned m = 1)).
Proof.
  assert (Hb : forall y start len,
             0 <= len -> 0 <= BF_GET y start len < 2 ^ len).
  { intros y start len Hl. rewrite BF_GET_mod by assumption.
    apply Z.mod_pos_bound. now apply Z.pow_pos_nonneg. }
  split; [ exact Hb | ].
  intros m.
  pose proof (Hb (command_ack_payload m) 0 3 ltac:(lia)) as Hc.
  pose proof (Hb (version_length m) 3 5 ltac:(lia)) as Hlen.
  pose proof (Hb (version_length m) 0 2 ltac:(lia)) as Hv.
  pose proof (Hb (command_ack_payload m) 5 3 ltac:(lia)) as Hp.
  pose proof (Hb (command_ack_payload m) 4 1 ltac:(lia)) as Ha.
  pose proof (Hb (command_ack_payload m) 3 1 ltac:(lia)) as Hr.
  pose proof (Hb (version_length m) 2 1 ltac:(lia)) as Hsg.
  unfold getCommand, uint8, mGetCommand, miGetCommand, mGetLength, miGetLength,
    mGetVersion, mGetPayloadType, mGetAck, mGetRequestAck, mGetSigned.
  rewrite (Z.mod_small (BF_GET (command_ack_payload m) 0 3)) by lia.
  change (2 ^ 3) with 8 in *. change (2 ^ 5) with 32 in *.
  change (2 ^ 2) with 4 in *. change (2 ^ 1) with 2 in *.
  repeat split; lia.
Qed.

Lemma BF_GET_bounded_witness : 0 <= BF_GET 255 3 5 < 2 ^ 5.
Proof. apply (proj1 BF_GET_bounded 255 3 5). lia. Defined.

(** * The header fields *)

Section HeaderFields.

(** A getter and a setter written with [BF_GET] and [BF_SET] on the
    [version_length] byte sit at the offset and width they name. *)
Lemma field_at_version_length (start len : Z) :
  0 <= start -> 0 <= len ->
  field_at version_length with_version_length
    (fun m => BF_GET (version_length m) start len)
    (fun m v => with_version_length m (BF_SET (version_length m) v start len))
    start len.
Proof.
  intros Hs Hl. unfold field_at. split; [ | split; [ | split ] ].
  - intros m i Hi.
    rewrite testbit_BF_GET by assumption. now rewrite (Z.add_comm start).
  - intros m v j Hj. cbn [with_version_length version_length].
    rewrite testbit_BF_SET by lia.
    replace (j <? 8) with true by (symmetry; apply Z.ltb_lt; lia).
    reflexivity.
  - intros m v. apply BF_SET_range.
  - reflexivity.
Qed.

Lemma field_at_command_ack_payload (start len : Z) :
  0 <= start -> 0 <= len ->
  field_at command_ack_payload with_command_ack_payload
    (fun m => BF_GET (command_ack_payload m) start len)
    (fun m v =>
       with_command_ack_payload m (BF_SET (command_ack_payload m) v start len))
    start len.
Proof.
  intros Hs Hl. unfold field_at. split; [ | split; [ | split ] ].
  - intros m i Hi.
    rewrite testbit_BF_GET by assumption. now rewrite (Z.add_comm start).
  - intros m v j Hj. cbn [with_command_ack_payload command_ack_payload].
    rewrite testbit_BF_SET by lia.
    replace (j <? 8) with true by (symmetry; apply Z.ltb_lt; lia).
    reflexivity.
  - intros m v. apply BF_SET_range.
  - reflexivity.
Qed.

End HeaderFields.

(** C6: the layout of the header sub-fields.  Within [version_length] the
    version is 2 bits at offset 0, the signed flag 1 bit at offset 2 and the
    length 5 bits at offset 3; within [command_ack_payload] the command is
    3 bits at offset 0, the ack request 1 bit at offset 3, the ack flag 1 bit
    at offset 4 and the payload type 3 bits at offset 5.  Every getter reads
    and every setter writes exactly those bit positions; the internal
    accessors agree with the public ones. *)
Theorem header_layout :
  field_at version_length with_version_length mGetVersion mSetVersion 0 2
  /\ field_at version_length with_version_length mGetSigned mSetSigned 2 1
  /\ field_at version_length with_version_length mGetLength mSetLength 3 5
  /\ field_at command_ack_payload with_command_ack_payload
       mGetCommand mSetCommand 0 3
  /\ field_at command_ack_payload with_command_ack_payload
       mGetRequestAck mSetRequestAck 3 1
  /\ field_at command_ack_payload with_command_ack_payload
       mGetAck mSetAck 4 1
  /\ field_at command_ack_payload with_command_ack_payload
       mGetPayloadType mSetPayloadType 5 3
  /\ field_at version_length with_version_length miGetLength miSetLength 3 5
  /\ field_at command_ack_payload with_command_ack_payload
       miGetRequestAck miSetRequestAck 3 1
  /\ field_at command_ack_payload with_command_ack_payload
       miGetAck miSetAck 4 1
  /\ field_at command_ack_payload with_command_ack_payload
       miGetPayloadType miSetPayloadType 5 3
  /\ (forall m, miGetCommand m = mGetCommand m).
Proof.
  repeat match goal with
         | |- _ /\ _ => split
         | |- field_at version_length _ _ _ _ _ =>
             apply field_at_version_length; lia
         | |- field_at command_ack_payload _ _ _ _ _ =>
             apply field_at_command_ack_payload; lia
         end.
  reflexivity.
Qed.

(** C7: no payload write touches the command or the ack flag: after any
    [set] overload, [isAck()] and [getCommand()] return what they returned
    before, and so do the command, ack and ack-request sub-fields. *)
Theorem set_preserves_command_and_ack (order : byte_order)
    (a : set_argument) (m : MyMessage) :
  isAck (set order a m) = isAck m
  /\ getCommand (set order a m) = getCommand m
  /\ mGetCommand (set order a m) = mGetCommand m
  /\ mGetAck (set order a m) = mGetAck m
  /\ mGetRequestAck (set order a m) = mGetRequestAck m.
Proof.
  unfold isAck, getCommand, miGetAck, miGetCommand, mGetCommand, mGetAck,
    mGetRequestAck, set.
  cbn [with_data miSetLength with_version_length miSetPayloadType
       with_command_ack_payload command_ack_payload].
  rewrite !BF_GET_BF_SET_other by lia.
  repeat split.
Qed.

(** C8: the default constructor gives a message whose fields are all zero;
    the constructor taking a sensor and a type gives a message with these
    two fields set, the command [C_SET] (1) and the payload type [P_STRING]
    (0). *)
Theorem constructors :
  (last MyMessage_ctor = 0 /\ sender MyMessage_ctor = 0
   /\ destination MyMessage_ctor = 0 /\ version_length MyMessage_ctor = 0
   /\ command_ack_payload MyMessage_ctor = 0 /\ type MyMessage_ctor = 0
   /\ sensor MyMessage_ctor = 0
   /\ Forall (fun b => b = 0) (array MyMessage_ctor))
  /\ (forall s t, 0 <= s < 256 -> 0 <= t < 256 ->
        sensor (MyMessage_ctor2 s t) = s
        /\ type (MyMessage_ctor2 s t) = t
        /\ mGetCommand (MyMessage_ctor2 s t) = command_value C_SET
        /\ command_value C_SET = 1
        /\ mGetPayloadType (MyMessage_ctor2 s t) = payload_value P_STRING
        /\ payload_value P_STRING = 0
        /\ getCommand (MyMessage_ctor2 s t) = 1
        /\ last (MyMessage_ctor2 s t) = 0
        /\ sender (MyMessage_ctor2 s t) = 0
        /\ destination (MyMessage_ctor2 s t) = 0
        /\ mGetLength (MyMessage_ctor2 s t) = 0
        /\ data (MyMessage_ctor2 s t) = data MyMessage_ctor).
Proof.
  split.
  - repeat split; try reflexivity.
    vm_compute. repeat constructor.
  - intros s t Hs Ht.
    assert (Hus : uint8 s = s) by (apply Z.mod_small; cbn; lia).
    assert (Hut : uint8 t = t) by (apply Z.mod_small; cbn; lia).
    unfold MyMessage_ctor2, mGetCommand, mGetPayloadType, getCommand,
      miGetCommand, mGetLength, mSetPayloadType, mSetCommand.
    cbn [with_command_ack_payload command_ack_payload sensor type last sender
         destination version_length data].
    rewrite Hus, Hut.
    repeat split; reflexivity.
Qed.

Lemma constructors_witness :
  sensor (MyMessage_ctor2 3 5) = 3 /\ type (MyMessage_ctor2 3 5) = 5
  /\ mGetCommand (MyMessage_ctor2 3 5) = 1
  /\ mGetPayloadType (MyMessage_ctor2 3 5) = 0.
Proof.
  destruct (proj2 constructors 3 5 ltac:(lia) ltac:(lia))
    as (Hs & Ht & Hc & Hc1 & Hp & Hp0 & _).
  rewrite Hc, Hp. repeat split; assumption.
Defined.

(** * The typed payload store *)

Section PayloadStore.

Variable order : byte_order.

Lemma le_bytes_length (n : nat) (v : Z) : List.length (le_bytes n v) = n.
Proof. revert v. induction n as [ | k IH]; intros v; cbn; [ | rewrite IH ]; reflexivity. Qed.

Lemma le_value_le_bytes (n : nat) (v : Z) :
  le_value (le_bytes n v) = v mod 2 ^ (8 * Z.of_nat n).
Proof.
  revert v. induction n as [ | k IH]; intros v.
  - cbn. now rewrite Z.mod_1_r.
  - cbn [le_bytes le_value]. rewrite IH. unfold uint8.
    apply Z.bits_inj'. intros i Hi.
    rewrite Z.lor_spec, !Z.testbit_mod_pow2 by lia.
    destruct (Z.ltb_spec i 8) as [Hlt | Hge].
    + rewrite Z.shiftl_spec_low by lia.
      replace (i <? 8 * Z.of_nat (S k)) with true
        by (symmetry; apply Z.ltb_lt; lia).
      now rewrite orb_false_r.
    + rewrite Z.shiftl_spec, Z.testbit_mod_pow2, Z.shiftr_spec by lia.
      replace (i - 8 + 8) with i by lia. cbn [andb orb]. f_equal.
      destruct (Z.ltb_spec (i - 8) (8 * Z.of_nat k)),
               (Z.ltb_spec i (8 * Z.of_nat (S k))); (reflexivity || lia).
Qed.

Lemma object_bytes_length (n : nat) (v : Z) :
  List.length (object_bytes order n v) = n.
Proof.
  destruct order; cbn; [ | rewrite length_rev ]; apply le_bytes_length.
Qed.

Lemma object_value_object_bytes (n : nat) (v : Z) :
  object_value order (object_bytes order n v) = v mod 2 ^ (8 * Z.of_nat n).
Proof.
  destruct order; cbn; [ | rewrite rev_involutive ]; apply le_value_le_bytes.
Qed.

(** What was stored is what the leading bytes of the union hold. *)
Lemma firstn_store (bs tl d : list Z) :
  firstn (List.length bs) (store (bs ++ tl) d) = bs.
Proof.
  unfold store. rewrite <- app_assoc, firstn_app, Nat.sub_diag, firstn_all.
  cbn [firstn]. apply app_nil_r.
Qed.

Lemma to_signed_mod (bits v : Z) :
  0 < bits -> - 2 ^ (bits - 1) <= v < 2 ^ (bits - 1) ->
  to_signed bits (v mod 2 ^ bits) = v.
Proof.
  intros Hb Hv. unfold to_signed.
  assert (Hp : 2 ^ bits = 2 * 2 ^ (bits - 1)).
  { rewrite <- Z.pow_succ_r by lia. f_equal. lia. }
  destruct (Z.neg_nonneg_cases v) as [Hneg | Hpos].
  - replace (v mod 2 ^ bits) with (v + 2 ^ bits).
    + destruct (Z.ltb_spec (v + 2 ^ bits) (2 ^ (bits - 1))); lia.
    + symmetry. rewrite <- (Z.mod_add v 1) by lia.
      rewrite Z.mul_1_l. apply Z.mod_small. lia.
  - rewrite Z.mod_small by lia.
    destruct (Z.ltb_spec v (2 ^ (bits - 1))); lia.
Qed.

Lemma data_set (a : set_argument) (m : MyMessage) :
  data (set order a m) = store (set_bytes order a) (data m).
Proof. reflexivity. Qed.


Lemma mGetPayloadType_set (a : set_argument) (m : MyMessage) :
  mGetPayloadType (set order a m) = payload_value (set_type a).
Proof.
  unfold mGetPayloadType, set.
  cbn [with_data miSetLength with_version_length miSetPayloadType
       with_command_ack_payload command_ack_payload].
  rewrite BF_GET_BF_SET_mod by lia.
  destruct a; reflexivity.
Qed.

End PayloadStore.

(** C5: for every payload type with a native value type, the matching [set]
    overload followed by the matching typed getter returns the value that
    was written: booleans, bytes, signed and unsigned 16- and 32-bit
    integers, and floats, whose 32-bit pattern and precision byte come back
    unchanged; the payload type tag is the one of the overload. *)
Theorem set_get_round_trip (order : byte_order) (m : MyMessage) :
  (forall v : bool, getBool (set order (set_bool v) m) = v)
  /\ (forall v, 0 <= v < 2 ^ 8 -> getByte (set order (set_uint8 v) m) = v)
  /\ (forall v, - 2 ^ 15 <= v < 2 ^ 15 ->
        getInt order (set order (set_int16 v) m) = v)
  /\ (forall v, 0 <= v < 2 ^ 16 ->
        getUInt order (set order (set_uint16 v) m) = v)
  /\ (forall v, - 2 ^ 31 <= v < 2 ^ 31 ->
        getLong order (set order (set_int32 v) m) = v)
  /\ (forall v, 0 <= v < 2 ^ 32 ->
        getULong order (set order (set_uint32 v) m) = v)
  /\ (forall v d, 0 <= v < 2 ^ 32 -> 0 <= d < 2 ^ 8 ->
        getFloat order (set order (set_float v d) m) = v
        /\ fPrecision (set order (set_float v d) m) = d)
  /\ (forall a, mGetPayloadType (set order a m) = payload_value (set_type a)).
Proof.
  assert (Hload : forall n v tl,
             object_value order
               (firstn n (store (object_bytes order n v ++ tl) (data m)))
             = v mod 2 ^ (8 * Z.of_nat n)).
  { intros n v tl.
    rewrite <- (object_bytes_length order n v) at 1.
    rewrite firstn_store. apply object_value_object_bytes. }
  repeat match goal with |- _ /\ _ => split end.
  - intros [ | ]; reflexivity.
  - intros v Hv. unfold getByte, bValue. rewrite data_set.
    cbn. now apply Z.mod_small.
  - intros v Hv. unfold getInt, iValue. rewrite data_set. cbn [set_bytes].
    rewrite <- (app_nil_r (object_bytes order 2 v)), Hload.
    now apply to_signed_mod.
  - intros v Hv. unfold getUInt, uiValue. rewrite data_set. cbn [set_bytes].
    rewrite <- (app_nil_r (object_bytes order 2 v)), Hload.
    now apply Z.mod_small.
  - intros v Hv. unfold getLong, lValue. rewrite data_set. cbn [set_bytes].
    rewrite <- (app_nil_r (object_bytes order 4 v)), Hload.
    now apply to_signed_mod.
  - intros v Hv. unfold getULong, ulValue. rewrite data_set. cbn [set_bytes].
    rewrite <- (app_nil_r (object_bytes order 4 v)), Hload.
    now apply Z.mod_small.
  - intros v d Hv Hd. split.
    + unfold getFloat, fValue. rewrite data_set. cbn [set_bytes].
      rewrite Hload. now apply Z.mod_small.
    + unfold fPrecision. rewrite data_set. cbn [set_bytes]. unfold store.
      rewrite <- app_assoc, app_nth2; rewrite object_bytes_length; [ | lia ].
      cbn. now apply Z.mod_small.
  - intros a. apply mGetPayloadType_set.
Qed.

Lemma set_get_round_trip_witness :
  getInt LittleEndian (set LittleEndian (set_int16 (-1234)) MyMessage_ctor)
  = -1234
  /\ getUInt BigEndian (set BigEndian (set_uint16 1234) (MyMessage_ctor2 3 5))
     = 1234.
Proof.
  split.
  - destruct (set_get_round_trip LittleEndian MyMessage_ctor)
      as (_ & _ & Hint & _).
    apply Hint. cbn. lia.
  - destruct (set_get_round_trip BigEndian (MyMessage_ctor2 3 5))
      as (_ & _ & _ & Huint & _).
    apply Huint. cbn. lia.
Defined.

(** * The length field *)

Section LengthField.

Variable order : byte_order.

Lemma MAX_PAYLOAD_value : MAX_PAYLOAD = 25.
Proof. reflexivity. Qed.





(** The length setter itself checks nothing: the field takes any five bits,
    which is why [built] leaves it to the [set] overloads. *)
Lemma mSetLength_unchecked :
  mGetLength (mSetLength MyMessage_ctor 31) = 31.
Proof. reflexivity. Qed.

End LengthField.



(** A text of 40 characters is stored as its first 25 characters, and the
    length field counts these. *)
Lemma set_long_text :
  mGetLength (set LittleEndian (set_string (repeat 120 40)) MyMessage_ctor)
  = 25
  /\ firstn 26 (data (set LittleEndian (set_string (repeat 120 40))
                         MyMessage_ctor))
     = repeat 120 25 ++ [0].
Proof. split; reflexivity. Qed.

(** * Hex rendering *)

Section HexStream.

Lemma h2i_i2h (n : Z) : 0 <= n < 16 -> h2i (i2h n) = Some n.
Proof.
  intros Hn. rewrite <- (Z2Nat.id n) by lia.
  assert (Hk : (Z.to_nat n < 16)%nat) by lia.
  revert Hk. generalize (Z.to_nat n) as k. intros k Hk.
  do 16 (destruct k as [ | k]; [ reflexivity | ]).
  lia.
Qed.

(** The digits are the sixteen characters 0-9 and a-f. *)
Lemma i2h_digits :
  string_of_list_ascii (map (fun k => i2h (Z.of_nat k)) (seq 0 16))
  = "0123456789abcdef"%string.
Proof. reflexivity. Qed.

Lemma is_uint8_range (b : Z) : is_uint8 b = true -> 0 <= b < 256.
Proof.
  unfold is_uint8. intros H. apply andb_true_iff in H as [H0 H1].
  apply Z.leb_le in H0. apply Z.ltb_lt in H1. lia.
Qed.

Lemma high_nibble_range (b : Z) : 0 <= b < 256 -> 0 <= Z.shiftr b 4 < 16.
Proof.
  intros Hb. rewrite Z.shiftr_div_pow2 by lia. change (2 ^ 4) with 16.
  split; [ apply Z.div_pos; lia | apply Z.div_lt_upper_bound; lia ].
Qed.

Lemma low_nibble_range (b : Z) : 0 <= Z.land b 15 < 16.
Proof.
  change 15 with (Z.ones 4). rewrite Z.land_ones by lia.
  apply Z.mod_pos_bound. reflexivity.
Qed.

Lemma nibbles_join (b : Z) :
  Z.lor (Z.shiftl (Z.shiftr b 4) 4) (Z.land b 15) = b.
Proof.
  apply Z.bits_inj'. intros i Hi.
  change 15 with (Z.ones 4).
  rewrite Z.lor_spec, Z.land_spec, Z.testbit_ones_nonneg by lia.
  destruct (Z.ltb_spec i 4) as [Hlt | Hge].
  - rewrite Z.shiftl_spec_low by lia. cbn [orb]. apply andb_true_r.
  - rewrite Z.shiftl_spec, Z.shiftr_spec by lia.
    rewrite andb_false_r, orb_false_r. f_equal. lia.
Qed.

(** Decoding undoes encoding on every sequence of bytes. *)
Lemma hex_decode_encode (bs : list Z) :
  forallb is_uint8 bs = true -> hex_decode (hex_encode bs) = Some bs.
Proof.
  induction bs as [ | b t IH]; intros Hbs; [ reflexivity | ].
  cbn [forallb] in Hbs. apply andb_true_iff in Hbs as [Hb Ht].
  apply is_uint8_range in Hb.
  cbn [hex_encode hex_decode].
  rewrite (h2i_i2h _ (high_nibble_range b Hb)).
  rewrite (h2i_i2h _ (low_nibble_range b)).
  rewrite (IH Ht), nibbles_join. reflexivity.
Qed.

Lemma hex_encode_length (bs : list Z) :
  String.length (hex_encode bs) = (2 * List.length bs)%nat.
Proof.
  induction bs as [ | b t IH]; [ reflexivity | ].
  cbn [hex_encode String.length List.length]. rewrite IH. lia.
Qed.

Lemma forallb_firstn (f : Z -> bool) (n : nat) (l : list Z) :
  forallb f l = true -> forallb f (firstn n l) = true.
Proof.
  revert l. induction n as [ | k IH]; intros [ | x l] H; try reflexivity.
  cbn [firstn forallb] in *.
  apply andb_true_iff in H as [Hx Hl]. now rewrite Hx, IH.
Qed.

Lemma wire_bytes_length (m : MyMessage) :
  well_formed m = true -> mGetLength m <= MAX_PAYLOAD ->
  Z.of_nat (List.length (wire_bytes m)) = HEADER_SIZE + mGetLength m.
Proof.
  intros Hwf HL. unfold well_formed in Hwf.
  apply andb_true_iff in Hwf as [_ Hlen]. apply Z.eqb_eq in Hlen.
  assert (H0 : 0 <= mGetLength m).
  { unfold mGetLength. rewrite BF_GET_mod by lia.
    apply Z.mod_pos_bound. reflexivity. }
  unfold wire_bytes, miGetLength, mGetLength in *. rewrite length_firstn.
  unfold array. rewrite length_app. cbn [List.length].
  unfold MAX_PAYLOAD, MAX_MESSAGE_LENGTH, HEADER_SIZE in *. lia.
Qed.

End HexStream.

(** * Well-formedness of built messages *)

Section WellFormed.

Variable order : byte_order.

Lemma is_uint8_uint8 (z : Z) : is_uint8 (uint8 z) = true.
Proof.
  pose proof (uint8_range z) as H. change (2 ^ 8) with 256 in H.
  unfold is_uint8. apply andb_true_iff.
  split; [ apply Z.leb_le | apply Z.ltb_lt ]; lia.
Qed.

Lemma is_uint8_BF_SET (y x start len : Z) :
  is_uint8 (BF_SET y x start len) = true.
Proof. apply is_uint8_uint8. Qed.

Lemma forallb_map_uint8 (l : list Z) : forallb is_uint8 (map uint8 l) = true.
Proof.
  induction l as [ | x l IH]; [ reflexivity | ].
  cbn [map forallb]. now rewrite is_uint8_uint8.
Qed.

Lemma forallb_skipn (f : Z -> bool) (n : nat) (l : list Z) :
  forallb f l = true -> forallb f (skipn n l) = true.
Proof.
  revert l. induction n as [ | k IH]; intros [ | x l] H; try assumption.
  cbn [skipn]. cbn [forallb] in H.
  apply andb_true_iff in H as [_ Hl]. now apply IH.
Qed.

Lemma le_bytes_uint8 (n : nat) (v : Z) :
  forallb is_uint8 (le_bytes n v) = true.
Proof.
  revert v. induction n as [ | k IH]; intros v; [ reflexivity | ].
  cbn [le_bytes forallb]. now rewrite is_uint8_uint8, IH.
Qed.

Lemma object_bytes_uint8 (n : nat) (v : Z) :
  forallb is_uint8 (object_bytes order n v) = true.
Proof.
  destruct order; cbn [object_bytes]; [ apply le_bytes_uint8 | ].
  apply forallb_forall. intros x Hx. apply in_rev in Hx.
  revert x Hx. apply forallb_forall, le_bytes_uint8.
Qed.

(** Every overload stores bytes, and no more than the union holds. *)
Lemma set_bytes_uint8 (a : set_argument) :
  forallb is_uint8 (set_bytes order a) = true.
Proof.
  destruct a as [p l | s | v d | [ | ] | v | v | v | v | v]; cbn [set_bytes];
    try apply object_bytes_uint8; try reflexivity.
  - apply forallb_firstn, forallb_map_uint8.
  - rewrite forallb_app, forallb_firstn by apply forallb_map_uint8.
    reflexivity.
  - rewrite forallb_app, object_bytes_uint8. cbn [forallb].
    now rewrite is_uint8_uint8.
  - cbn [forallb]. now rewrite is_uint8_uint8.
Qed.

Lemma set_bytes_length (a : set_argument) :
  Z.of_nat (List.length (set_bytes order a)) <= MAX_PAYLOAD + 1.
Proof.
  rewrite MAX_PAYLOAD_value.
  destruct a as [p l | s | v d | b | v | v | v | v | v]; cbn [set_bytes];
    rewrite ?length_app, ?length_firstn, ?object_bytes_length;
    cbn [List.length]; rewrite ?MAX_PAYLOAD_value; lia.
Qed.

Lemma store_length (bs d : list Z) :
  (List.length bs <= List.length d)%nat ->
  List.length (store bs d) = List.length d.
Proof.
  intros H. unfold store. rewrite length_app, length_skipn. lia.
Qed.

Lemma forallb_store (bs d : list Z) :
  forallb is_uint8 bs = true -> forallb is_uint8 d = true ->
  forallb is_uint8 (store bs d) = true.
Proof.
  intros Hbs Hd. unfold store.
  now rewrite forallb_app, Hbs, forallb_skipn.
Qed.

(** [well_formed] member by member. *)
Lemma well_formed_members (m : MyMessage) :
  well_formed m = true <->
  is_uint8 (last m) = true /\ is_uint8 (sender m) = true
  /\ is_uint8 (destination m) = true /\ is_uint8 (version_length m) = true
  /\ is_uint8 (command_ack_payload m) = true /\ is_uint8 (type m) = true
  /\ is_uint8 (sensor m) = true /\ forallb is_uint8 (data m) = true
  /\ Z.of_nat (List.length (data m)) = MAX_PAYLOAD + 1.
Proof.
  unfold well_formed, array. cbn [app forallb].
  rewrite !andb_true_iff, Z.eqb_eq. tauto.
Qed.

Ltac member_wise :=
  match goal with
  | IH : well_formed _ = true |- well_formed _ = true =>
      apply well_formed_members in IH;
      destruct IH as (? & ? & ? & ? & ? & ? & ? & ? & ?);
      apply well_formed_members;
      cbn [last sender destination version_length command_ack_payload
           type sensor data with_version_length with_command_ack_payload
           with_data];
      repeat split;
      first [ assumption | apply is_uint8_uint8 | apply is_uint8_BF_SET ]
  end.

(** Every built message holds [uint8_t] values in all its members. *)
Lemma built_well_formed (m : MyMessage) :
  built order m -> well_formed m = true.
Proof.
  induction 1 as [ | s t | m t _ IH | m s _ IH | m d _ IH | m v _ IH
                 | m s _ IH | m c _ IH | m r _ IH | m a _ IH | m p _ IH
                 | m a _ IH ].
  - reflexivity.
  - apply well_formed_members.
    unfold MyMessage_ctor2, mSetPayloadType, mSetCommand.
    cbn [last sender destination version_length command_ack_payload
         type sensor data with_command_ack_payload].
    repeat split;
      first [ reflexivity | apply is_uint8_uint8 | apply is_uint8_BF_SET ].
  - unfold setType. member_wise.
  - unfold setSensor. member_wise.
  - unfold setDestination. member_wise.
  - unfold mSetVersion. member_wise.
  - unfold mSetSigned. member_wise.
  - unfold mSetCommand. member_wise.
  - unfold mSetRequestAck. member_wise.
  - unfold mSetAck. member_wise.
  - unfold mSetPayloadType. member_wise.
  - apply well_formed_members in IH.
    destruct IH as (Hl & Hs & Hd & Hv & Hc & Ht & Hn & Hb & Hlen).
    apply well_formed_members.
    unfold set, miSetLength, miSetPayloadType.
    cbn [last sender destination version_length command_ack_payload
         type sensor data with_version_length with_command_ack_payload
         with_data].
    repeat split;
      try first [ assumption | apply is_uint8_uint8 | apply is_uint8_BF_SET ].
    + apply forallb_store; [ apply set_bytes_uint8 | assumption ].
    + rewrite store_length; [ assumption | ].
      pose proof (set_bytes_length a). lia.
Qed.

End WellFormed.

(** C4: for every message, with length field L, the hex rendering of its
    header and payload bytes has two characters per byte, most-significant
    nibble first, and decoding that text yields the same bytes unchanged;
    they are the 7 + L bytes of the message. *)
Theorem hex_round_trip (m : MyMessage) :
  well_formed m = true ->
  hex_decode (getStream m) = Some (wire_bytes m)
  /\ String.length (getStream m) = (2 * List.length (wire_bytes m))%nat
  /\ (mGetLength m <= MAX_PAYLOAD ->
      Z.of_nat (List.length (wire_bytes m)) = HEADER_SIZE + mGetLength m).
Proof.
  intros Hwf. split; [ | split ].
  - unfold getStream. apply hex_decode_encode.
    unfold wire_bytes. apply forallb_firstn.
    unfold well_formed in Hwf. now apply andb_true_iff in Hwf as [Hb _].
  - apply hex_encode_length.
  - now apply wire_bytes_length.
Qed.

Lemma hex_round_trip_witness :
  let m := setDestination
             (set LittleEndian (set_uint16 1234) (MyMessage_ctor2 3 5)) 10 in
  well_formed m = true
  /\ getStream m = "00000a10610503d204"%string
  /\ hex_decode (getStream m) = Some [0; 0; 10; 16; 97; 5; 3; 210; 4].
Proof.
  cbv zeta. split; [ reflexivity | split; [ reflexivity | ] ].
  apply (hex_round_trip
           (setDestination
              (set LittleEndian (set_uint16 1234) (MyMessage_ctor2 3 5)) 10)).
  reflexivity.
Defined.

(** * Further properties of the bitfield macros *)

Section FieldAlgebra.

Lemma uint8_small (y : Z) : 0 <= y < 2 ^ 8 -> uint8 y = y.
Proof. intros Hy. unfold uint8. now apply Z.mod_small. Qed.

(** A [uint8_t] value has no bit above the seventh. *)
Lemma testbit_byte (y j : Z) :
  0 <= y < 2 ^ 8 -> 0 <= j -> Z.testbit y j = (j <? 8) && Z.testbit y j.
Proof.
  intros Hy Hj. rewrite <- testbit_uint8 by assumption.
  now rewrite uint8_small.
Qed.

Lemma BF_MASK_value (start len : Z) :
  0 <= start -> 0 <= len -> BF_MASK start len = (2 ^ len - 1) * 2 ^ start.
Proof.
  intros Hs Hl. unfold BF_MASK.
  rewrite BIT_MASK_ones, Z.shiftl_mul_pow2, Z.ones_equiv by assumption.
  f_equal; lia.
Qed.

Lemma BF_PREP_value (x start len : Z) :
  0 <= start -> 0 <= len ->
  BF_PREP x start len = (x mod 2 ^ len) * 2 ^ start.
Proof.
  intros Hs Hl. unfold BF_PREP.
  now rewrite BIT_MASK_ones, Z.shiftl_mul_pow2, Z.land_ones.
Qed.

Lemma pow2_field (start len : Z) :
  0 <= start -> 0 <= len -> start + len <= 8 ->
  0 < 2 ^ start /\ 0 < 2 ^ len /\ 2 ^ len * 2 ^ start <= 2 ^ 8.
Proof.
  intros Hs Hl Hfit. repeat split; try (apply Z.pow_pos_nonneg; lia).
  rewrite <- Z.pow_add_r by assumption.
  apply Z.pow_le_mono_r; lia.
Qed.

(** Two adjacent fields read as one: the lower one holds the low bits. *)
Lemma BF_GET_adjacent (y start l1 l2 : Z) :
  0 <= start -> 0 <= l1 -> 0 <= l2 ->
  BF_GET y start (l1 + l2) =
  BF_GET y start l1 + 2 ^ l1 * BF_GET y (start + l1) l2.
Proof.
  intros Hs H1 H2. rewrite !BF_GET_mod by lia.
  rewrite !Z.shiftr_div_pow2 by lia.
  assert (Hp1 : 0 < 2 ^ l1) by (apply Z.pow_pos_nonneg; lia).
  assert (Hp2 : 0 < 2 ^ l2) by (apply Z.pow_pos_nonneg; lia).
  assert (Hps : 0 < 2 ^ start) by (apply Z.pow_pos_nonneg; lia).
  rewrite (Z.pow_add_r 2 l1 l2), Z.rem_mul_r by lia.
  rewrite (Z.pow_add_r 2 start l1), Z.div_div by lia.
  reflexivity.
Qed.

Lemma BF_GET_byte (y : Z) : 0 <= y < 2 ^ 8 -> BF_GET y 0 8 = y.
Proof.
  intros Hy. rewrite BF_GET_mod, Z.shiftr_0_r by lia. now apply Z.mod_small.
Qed.

End FieldAlgebra.

(** X1: inserting the value a field already holds changes nothing: for a
    [uint8_t] container [y] and a field inside it,
    [BF_SET(y, BF_GET(y, start, len), start, len)] leaves [y] as it was. *)
Theorem BF_SET_BF_GET (y start len : Z) :
  0 <= start -> 0 <= len -> start + len <= 8 -> 0 <= y < 2 ^ 8 ->
  BF_SET y (BF_GET y start len) start len = y.
Proof.
  intros Hs Hl _ Hy. apply Z.bits_inj'. intros j Hj.
  pose proof (testbit_byte y j Hy Hj) as Hbyte.
  rewrite testbit_BF_SET by assumption.
  destruct (Z.leb_spec start j) as [Hle | Hlt]; cbn [andb];
    [ | now symmetry ].
  destruct (Z.ltb_spec j (start + len)) as [Hin | Hout]; [ | now symmetry ].
  rewrite testbit_BF_GET by lia.
  replace (j - start <? len) with true by (symmetry; apply Z.ltb_lt; lia).
  replace (j - start + start) with j by lia.
  cbn [andb]. now symmetry.
Qed.

Lemma BF_SET_BF_GET_witness :
(3 + 5 <= 8 /\ 0 <= 173 < 2 ^ 8)
  /\ BF_SET 173 (BF_GET 173 3 5) 3 5 = 173.
Proof.
  split; [ cbn; lia | ].
  apply (BF_SET_BF_GET 173 3 5); cbn; lia.
Defined.

(** X2: insertions into two fields of the container that do not overlap
    commute: the container is the same whichever field is written first. *)
Theorem BF_SET_commute (y a b s1 l1 s2 l2 : Z) :
  0 <= s1 -> 0 <= l1 -> 0 <= s2 -> 0 <= l2 ->
  s1 + l1 <= 8 -> s2 + l2 <= 8 ->
  s1 + l1 <= s2 \/ s2 + l2 <= s1 ->
  BF_SET (BF_SET y a s1 l1) b s2 l2 = BF_SET (BF_SET y b s2 l2) a s1 l1.
Proof.
  intros Hs1 Hl1 Hs2 Hl2 _ _ Hsep. apply Z.bits_inj'. intros j Hj.
  rewrite !testbit_BF_SET by assumption.
  destruct (Z.leb_spec s1 j), (Z.ltb_spec j (s1 + l1)),
           (Z.leb_spec s2 j), (Z.ltb_spec j (s2 + l2)), (j <? 8);
    cbn [andb]; try reflexivity; lia.
Qed.

Lemma BF_SET_commute_witness :
  BF_SET (BF_SET 0 2 0 2) 25 3 5 = BF_SET (BF_SET 0 25 3 5) 2 0 2.
Proof. apply (BF_SET_commute 0 2 25 0 2 3 5); lia. Defined.

(** X3: [BF_PREP] masks before it shifts: for a field inside the byte its
    result has no bit outside [BF_MASK(start, len)], depends on the low
    [len] bits of [x] only, and reads back through [BF_GET] as
    [x mod 2^len]. *)
Theorem BF_PREP_within_mask (x start len : Z) :
  0 <= start -> 0 <= len -> start + len <= 8 ->
  Z.land (BF_PREP x start len) (BF_MASK start len) = BF_PREP x start len
  /\ Z.land (BF_PREP x start len) (Z.lnot (BF_MASK start len)) = 0
  /\ BF_PREP x start len = BF_PREP (x mod 2 ^ len) start len
  /\ BF_GET (BF_PREP x start len) start len = x mod 2 ^ len
  /\ 0 <= BF_PREP x start len <= BF_MASK start len.
Proof.
  intros Hs Hl _.
  assert (Hin : forall j, 0 <= j ->
            Z.testbit (BF_PREP x start len) j = true ->
            Z.testbit (BF_MASK start len) j = true).
  { intros j Hj. rewrite testbit_BF_PREP, testbit_BF_MASK by assumption.
    intros H. now apply andb_true_iff in H as [H _]. }
  repeat match goal with |- _ /\ _ => split end.
  - apply Z.bits_inj'. intros j Hj. rewrite Z.land_spec.
    destruct (Z.testbit (BF_PREP x start len) j) eqn:Hp; [ | reflexivity ].
    now rewrite (Hin j Hj Hp).
  - apply Z.bits_inj'. intros j Hj.
    rewrite Z.land_spec, Z.lnot_spec, Z.bits_0 by assumption.
    destruct (Z.testbit (BF_PREP x start len) j) eqn:Hp; [ | reflexivity ].
    now rewrite (Hin j Hj Hp).
  - rewrite !BF_PREP_value by assumption.
    now rewrite Z.mod_mod by (apply Z.pow_nonzero; lia).
  - apply Z.bits_inj'. intros i Hi.
    rewrite testbit_BF_GET, testbit_BF_PREP, Z.testbit_mod_pow2 by lia.
    destruct (Z.ltb_spec i len); cbn [andb]; [ | reflexivity ].
    replace (start <=? i + start) with true by (symmetry; apply Z.leb_le; lia).
    replace (i + start <? start + len) with true
      by (symmetry; apply Z.ltb_lt; lia).
    cbn [andb]. f_equal. lia.
  - rewrite BF_PREP_value by assumption.
    assert (Hp : 0 < 2 ^ start) by (apply Z.pow_pos_nonneg; lia).
    assert (Hm : 0 <= x mod 2 ^ len < 2 ^ len)
      by (apply Z.mod_pos_bound, Z.pow_pos_nonneg; lia).
    nia.
  - rewrite BF_PREP_value, BF_MASK_value by assumption.
    assert (Hp : 0 < 2 ^ start) by (apply Z.pow_pos_nonneg; lia).
    assert (Hm : 0 <= x mod 2 ^ len < 2 ^ len)
      by (apply Z.mod_pos_bound, Z.pow_pos_nonneg; lia).
    nia.
Qed.

Lemma BF_PREP_within_mask_witness :
  BF_PREP 45 3 5 = 104 /\ BF_MASK 3 5 = 248
  /\ BF_GET (BF_PREP 45 3 5) 3 5 = 45 mod 2 ^ 5.
Proof.
  split; [ reflexivity | split; [ reflexivity | ] ].
  destruct (BF_PREP_within_mask 45 3 5 ltac:(lia) ltac:(lia) ltac:(lia))
    as (_ & _ & _ & Hget & _).
  exact Hget.
Defined.

(** X4: for a field inside a [uint8_t] container nothing overflows and the
    store truncates nothing: [BIT], [BF_MASK], [BF_PREP] and the complement
    of the mask stay within eight bits plus sign, and the value [BF_SET]
    computes is already a [uint8_t] value. *)
Theorem BF_SET_no_truncation (y x start len : Z) :
  0 <= start -> 0 <= len -> start + len <= 8 -> 0 <= y < 2 ^ 8 ->
  BF_SET_rhs y x start len = BF_SET y x start len
  /\ 0 <= BF_SET_rhs y x start len < 2 ^ 8
  /\ 0 < BIT len <= 2 ^ 8
  /\ 0 <= BF_MASK start len < 2 ^ 8
  /\ - 2 ^ 8 <= Z.lnot (BF_MASK start len) < 0
  /\ 0 <= BF_PREP x start len < 2 ^ 8.
Proof.
  intros Hs Hl Hfit Hy.
  destruct (pow2_field start len Hs Hl Hfit) as (Hps & Hpl & Hle).
  assert (Hrhs : BF_SET_rhs y x start len = BF_SET y x start len).
  { apply Z.bits_inj'. intros j Hj.
    rewrite testbit_BF_SET, testbit_BF_SET_rhs by assumption.
    destruct (Z.ltb_spec j 8) as [Hlt | Hge]; cbn [andb]; [ reflexivity | ].
    replace ((start <=? j) && (j <? start + len)) with false.
    - rewrite (testbit_byte y j) by assumption.
      replace (j <? 8) with false by (symmetry; apply Z.ltb_ge; lia).
      reflexivity.
    - symmetry. apply andb_false_iff. right. apply Z.ltb_ge. lia. }
  assert (Hmask : 0 <= BF_MASK start len < 2 ^ 8).
  { rewrite BF_MASK_value by assumption. nia. }
  assert (Hm : 0 <= x mod 2 ^ len < 2 ^ len) by (apply Z.mod_pos_bound; lia).
  split; [ exact Hrhs | ].
  split; [ rewrite Hrhs; apply BF_SET_range | ].
  split; [ | split; [ exact Hmask | split ] ].
  - unfold BIT. rewrite Z.shiftl_1_l. split; [ lia | ].
    apply Z.pow_le_mono_r; lia.
  - unfold Z.lnot. lia.
  - rewrite BF_PREP_value by assumption. nia.
Qed.

Lemma BF_SET_no_truncation_witness :
  BF_SET_rhs 255 45 3 5 = BF_SET 255 45 3 5
  /\ 0 <= BF_SET_rhs 255 45 3 5 < 2 ^ 8.
Proof.
  destruct (BF_SET_no_truncation 255 45 3 5
              ltac:(lia) ltac:(lia) ltac:(lia) ltac:(cbn; lia))
    as (H1 & H2 & _).
  exact (conj H1 H2).
Defined.

(** * The header as a tuple of fields *)

Section HeaderTuple.

(** A [uint8_t] container is the sum of its fields, each at its offset. *)
Lemma version_length_sum (y : Z) :
  0 <= y < 2 ^ 8 ->
  y = BF_GET y 0 2 + 4 * BF_GET y 2 1 + 8 * BF_GET y 3 5.
Proof.
  intros Hy.
  pose proof (BF_GET_adjacent y 0 2 6 ltac:(lia) ltac:(lia) ltac:(lia)) as H1.
  pose proof (BF_GET_adjacent y 2 1 5 ltac:(lia) ltac:(lia) ltac:(lia)) as H2.
  change (2 + 6) with 8 in H1. change (0 + 2) with 2 in H1.
  change (1 + 5) with 6 in H2. change (2 + 1) with 3 in H2.
  change (2 ^ 2) with 4 in H1. change (2 ^ 1) with 2 in H2.
  rewrite (BF_GET_byte y Hy) in H1. lia.
Qed.

Lemma command_ack_payload_sum (y : Z) :
  0 <= y < 2 ^ 8 ->
  y = BF_GET y 0 3 + 8 * BF_GET y 3 1 + 16 * BF_GET y 4 1
      + 32 * BF_GET y 5 3.
Proof.
  intros Hy.
  pose proof (BF_GET_adjacent y 0 3 5 ltac:(lia) ltac:(lia) ltac:(lia)) as H1.
  pose proof (BF_GET_adjacent y 3 1 4 ltac:(lia) ltac:(lia) ltac:(lia)) as H2.
  pose proof (BF_GET_adjacent y 4 1 3 ltac:(lia) ltac:(lia) ltac:(lia)) as H3.
  change (3 + 5) with 8 in H1. change (0 + 3) with 3 in H1.
  change (1 + 4) with 5 in H2. change (3 + 1) with 4 in H2.
  change (1 + 3) with 4 in H3. change (4 + 1) with 5 in H3.
  change (2 ^ 3) with 8 in H1. change (2 ^ 1) with 2 in H2, H3.
  rewrite (BF_GET_byte y Hy) in H1. lia.
Qed.

End HeaderTuple.

(** X5: each header setter changes its own field and no other: after
    [mSetX(msg, v)] the field X reads [v] modulo its width and the six
    other header fields read what they read before. *)
Theorem header_fields_set (m : MyMessage) (v : Z) :
  header_fields (mSetVersion m v)
  = [v mod 2 ^ 2; mGetSigned m; mGetLength m; mGetCommand m;
     mGetRequestAck m; mGetAck m; mGetPayloadType m]
  /\ header_fields (mSetSigned m v)
     = [mGetVersion m; v mod 2 ^ 1; mGetLength m; mGetCommand m;
        mGetRequestAck m; mGetAck m; mGetPayloadType m]
  /\ header_fields (mSetLength m v)
     = [mGetVersion m; mGetSigned m; v mod 2 ^ 5; mGetCommand m;
        mGetRequestAck m; mGetAck m; mGetPayloadType m]
  /\ header_fields (mSetCommand m v)
     = [mGetVersion m; mGetSigned m; mGetLength m; v mod 2 ^ 3;
        mGetRequestAck m; mGetAck m; mGetPayloadType m]
  /\ header_fields (mSetRequestAck m v)
     = [mGetVersion m; mGetSigned m; mGetLength m; mGetCommand m;
        v mod 2 ^ 1; mGetAck m; mGetPayloadType m]
  /\ header_fields (mSetAck m v)
     = [mGetVersion m; mGetSigned m; mGetLength m; mGetCommand m;
        mGetRequestAck m; v mod 2 ^ 1; mGetPayloadType m]
  /\ header_fields (mSetPayloadType m v)
     = [mGetVersion m; mGetSigned m; mGetLength m; mGetCommand m;
        mGetRequestAck m; mGetAck m; v mod 2 ^ 3].
Proof.
  unfold header_fields, mSetVersion, mSetSigned, mSetLength, mSetCommand,
    mSetRequestAck, mSetAck, mSetPayloadType, mGetVersion, mGetSigned,
    mGetLength, mGetCommand, mGetRequestAck, mGetAck, mGetPayloadType.
  cbn [with_version_length with_command_ack_payload version_length
       command_ack_payload].
  rewrite !BF_GET_BF_SET_mod by lia.
  rewrite !BF_GET_BF_SET_other by lia.
  repeat split.
Qed.

(** X6: the two header bytes are determined by the seven fields: a
    [uint8_t] [version_length] is version + 4 signed + 8 length, a [uint8_t]
    [command_ack_payload] is command + 8 requestAck + 16 ack + 32
    payloadType, so two messages with the same fields have the same two
    bytes. *)
Theorem header_bytes_from_fields (m m' : MyMessage) :
  0 <= version_length m < 2 ^ 8 -> 0 <= command_ack_payload m < 2 ^ 8 ->
  version_length m = mGetVersion m + 4 * mGetSigned m + 8 * mGetLength m
  /\ command_ack_payload m
     = mGetCommand m + 8 * mGetRequestAck m + 16 * mGetAck m
       + 32 * mGetPayloadType m
  /\ (0 <= version_length m' < 2 ^ 8 ->
      0 <= command_ack_payload m' < 2 ^ 8 ->
      header_fields m = header_fields m' ->
      version_length m = version_length m'
      /\ command_ack_payload m = command_ack_payload m').
Proof.
  intros Hv Hc. split; [ | split ].
  - now apply version_length_sum.
  - now apply command_ack_payload_sum.
  - intros Hv' Hc' Heq. unfold header_fields in Heq.
    injection Heq as E1 E2 E3 E4 E5 E6 E7.
    unfold mGetVersion, mGetSigned, mGetLength, mGetCommand, mGetRequestAck,
      mGetAck, mGetPayloadType in *.
    rewrite (version_length_sum _ Hv), (version_length_sum _ Hv').
    rewrite (command_ack_payload_sum _ Hc), (command_ack_payload_sum _ Hc').
    rewrite E1, E2, E3, E4, E5, E6, E7. split; reflexivity.
Qed.

Lemma header_bytes_from_fields_witness :
  let m := mkMyMessage 0 0 0 146 97 5 3 [] in
  version_length m = mGetVersion m + 4 * mGetSigned m + 8 * mGetLength m
  /\ header_fields m = [2; 0; 18; 1; 0; 0; 3].
Proof.
  cbv zeta. split; [ | reflexivity ].
  destruct (header_bytes_from_fields
              (mkMyMessage 0 0 0 146 97 5 3 [])
              (mkMyMessage 0 0 0 146 97 5 3 []))
    as (Hsum & _); [ cbn; lia | cbn; lia | exact Hsum ].
Defined.

(** X7: the values the header declares fit the fields that carry them:
    every command and every payload type reads back from its 3-bit field,
    the protocol version from its 2-bit field, every payload length up to
    [MAX_PAYLOAD] from the 5-bit length field; distinct commands and
    distinct payload types have distinct values. *)
Theorem declared_values_fit (m : MyMessage) :
  (forall c, mGetCommand (mSetCommand m (command_value c)) = command_value c)
  /\ (forall p,
        mGetPayloadType (mSetPayloadType m (payload_value p))
        = payload_value p)
  /\ mGetVersion (mSetVersion m PROTOCOL_VERSION) = PROTOCOL_VERSION
  /\ (forall l, 0 <= l <= MAX_PAYLOAD -> mGetLength (mSetLength m l) = l)
  /\ (forall c1 c2, command_value c1 = command_value c2 -> c1 = c2)
  /\ (forall p1 p2, payload_value p1 = payload_value p2 -> p1 = p2).
Proof.
  unfold mGetCommand, mSetCommand, mGetPayloadType, mSetPayloadType,
    mGetVersion, mSetVersion, mGetLength, mSetLength.
  cbn [with_version_length with_command_ack_payload version_length
       command_ack_payload].
  repeat match goal with |- _ /\ _ => split end.
  - intros c. rewrite BF_GET_BF_SET_mod by lia. now destruct c.
  - intros p. rewrite BF_GET_BF_SET_mod by lia. now destruct p.
  - now rewrite BF_GET_BF_SET_mod by lia.
  - intros l Hl. rewrite BF_GET_BF_SET_mod by lia.
    rewrite MAX_PAYLOAD_value in Hl. apply Z.mod_small.
    change (2 ^ 5) with 32. lia.
  - intros [ | | | | ] [ | | | | ]; cbn; intros H;
      first [ reflexivity | discriminate H ].
  - intros [ | | | | | | | ] [ | | | | | | | ]; cbn; intros H;
      first [ reflexivity | discriminate H ].
Qed.

Lemma declared_values_fit_witness :
  mGetLength (mSetLength (mkMyMessage 0 0 0 255 0 0 0 []) 25) = 25.
Proof.
  destruct (declared_values_fit (mkMyMessage 0 0 0 255 0 0 0 []))
    as (_ & _ & _ & Hlen & _).
  apply Hlen. rewrite MAX_PAYLOAD_value. lia.
Defined.

(** X8: the eight payload types exhaust the 3-bit payload-type field, so
    whatever the header byte holds the field names a declared payload type;
    the five commands do not exhaust the 3-bit command field: the values 5,
    6 and 7 can be stored and read back and name no declared command. *)
Theorem payload_types_exhaust_field :
  (forall m, exists p, mGetPayloadType m = payload_value p)
  /\ (forall m v c, 5 <= v < 8 ->
        mGetCommand (mSetCommand m v) = v
        /\ mGetCommand (mSetCommand m v) <> command_value c).
Proof.
  split.
  - intros m.
    assert (Hb : 0 <= mGetPayloadType m < 8).
    { unfold mGetPayloadType. rewrite BF_GET_mod by lia.
      apply Z.mod_pos_bound. reflexivity. }
    assert (Hcases : mGetPayloadType m = 0 \/ mGetPayloadType m = 1
                     \/ mGetPayloadType m = 2 \/ mGetPayloadType m = 3
                     \/ mGetPayloadType m = 4 \/ mGetPayloadType m = 5
                     \/ mGetPayloadType m = 6 \/ mGetPayloadType m = 7)
      by lia.
    destruct Hcases as [H | [H | [H | [H | [H | [H | [H | H]]]]]]];
      rewrite H;
      [ exists P_STRING | exists P_BYTE | exists P_INT16 | exists P_UINT16
      | exists P_LONG32 | exists P_ULONG32 | exists P_CUSTOM
      | exists P_FLOAT32 ]; reflexivity.
  - intros m v c Hv.
    assert (Hget : mGetCommand (mSetCommand m v) = v).
    { unfold mGetCommand, mSetCommand.
      cbn [with_command_ack_payload command_ack_payload].
      rewrite BF_GET_BF_SET_mod by lia. apply Z.mod_small.
      change (2 ^ 3) with 8. lia. }
    split; [ exact Hget | ].
    rewrite Hget. destruct c; cbn; lia.
Qed.

Lemma payload_types_exhaust_field_witness :
  mGetCommand (mSetCommand (mkMyMessage 0 0 0 0 0 0 0 []) 6) = 6
  /\ mGetCommand (mSetCommand (mkMyMessage 0 0 0 0 0 0 0 []) 6)
     <> command_value C_STREAM.
Proof.
  apply (proj2 payload_types_exhaust_field
           (mkMyMessage 0 0 0 0 0 0 0 []) 6 C_STREAM).
  lia.
Defined.

(** * The enumerations of sub-types *)

(** X9: the four enumerations of message sub-types number their plain
    enumerators 0, 1, 2, ... without a gap (40 sensor types, 54 data types,
    29 internal types, 6 stream types); the only explicit initialisers are
    [S_BINARY], [V_LIGHT], [V_DIMMER] and [V_HVAC_FLOW_STATE], and each
    repeats the value of the enumerator declared just before it; every
    value fits the 8-bit [type] and [sensorType] members. *)
Theorem sub_type_enumerations :
  enum_plain_values mysensor_sensor = map Z.of_nat (seq 0 40)
  /\ enum_plain_values mysensor_data = map Z.of_nat (seq 0 54)
  /\ enum_plain_values mysensor_internal = map Z.of_nat (seq 0 29)
  /\ enum_plain_values mysensor_stream = map Z.of_nat (seq 0 6)
  /\ enum_initialised None mysensor_sensor
     = [("S_BINARY", Some "S_LIGHT")]%string
  /\ enum_initialised None mysensor_data
     = [("V_LIGHT", Some "V_STATUS"); ("V_DIMMER", Some "V_PERCENTAGE");
        ("V_HVAC_FLOW_STATE", Some "V_HEATER")]%string
  /\ enum_initialised None mysensor_internal = []
  /\ enum_initialised None mysensor_stream = []
  /\ (enum_value mysensor_sensor "S_BINARY" = Some 3
      /\ enum_value mysensor_sensor "S_LIGHT" = Some 3)
  /\ (enum_value mysensor_data "V_LIGHT" = Some 2
      /\ enum_value mysensor_data "V_STATUS" = Some 2)
  /\ (enum_value mysensor_data "V_DIMMER" = Some 3
      /\ enum_value mysensor_data "V_PERCENTAGE" = Some 3)
  /\ (enum_value mysensor_data "V_HVAC_FLOW_STATE" = Some 21
      /\ enum_value mysensor_data "V_HEATER" = Some 21)
  /\ (forall decl,
        In decl [mysensor_sensor; mysensor_data; mysensor_internal;
                 mysensor_stream] ->
        forallb (fun e => is_uint8 (snd e)) (enum_values decl) = true).
Proof.
  repeat match goal with |- _ /\ _ => split end; try (vm_compute; reflexivity).
  intros decl Hin. cbn [In] in Hin.
  destruct Hin as [<- | [<- | [<- | [<- | []]]]]; vm_compute; reflexivity.
Qed.

(** * The members of the payload union *)

Section UnionViews.

Variable order : byte_order.

(** A byte and a value shifted past it do not overlap. *)
Lemma lor_shiftl_byte (b v : Z) :
  0 <= b < 2 ^ 8 -> Z.lor b (Z.shiftl v 8) = b + v * 2 ^ 8.
Proof.
  intros Hb.
  assert (Hdisj : Z.land b (Z.shiftl v 8) = 0).
  { apply Z.bits_inj'. intros j Hj.
    rewrite Z.land_spec, Z.bits_0, (testbit_byte b j) by assumption.
    destruct (Z.ltb_spec j 8) as [Hlt | Hge]; cbn [andb]; [ | reflexivity ].
    rewrite Z.shiftl_spec_low by assumption. apply andb_false_r. }
  rewrite <- Z.lxor_lor, <- Z.add_nocarry_lxor by assumption.
  now rewrite Z.shiftl_mul_pow2 by lia.
Qed.

Lemma le_value_range (bs : list Z) :
  forallb is_uint8 bs = true ->
  0 <= le_value bs < 2 ^ (8 * Z.of_nat (List.length bs)).
Proof.
  induction bs as [ | b t IH]; intros Hbs; [ cbn; lia | ].
  cbn [forallb] in Hbs. apply andb_true_iff in Hbs as [Hb Ht].
  apply is_uint8_range in Hb. specialize (IH Ht).
  cbn [le_value List.length].
  rewrite lor_shiftl_byte by (change (2 ^ 8) with 256; lia).
  replace (8 * Z.of_nat (S (List.length t)))
    with (8 * Z.of_nat (List.length t) + 8) by lia.
  rewrite Z.pow_add_r by lia. change (2 ^ 8) with 256. nia.
Qed.

Lemma le_bytes_le_value (bs : list Z) :
  forallb is_uint8 bs = true -> le_bytes (List.length bs) (le_value bs) = bs.
Proof.
  induction bs as [ | b t IH]; intros Hbs; [ reflexivity | ].
  cbn [forallb] in Hbs. apply andb_true_iff in Hbs as [Hb Ht].
  apply is_uint8_range in Hb.
  cbn [le_value List.length le_bytes].
  rewrite lor_shiftl_byte by (change (2 ^ 8) with 256; lia).
  unfold uint8. rewrite Z.mod_add, Z.mod_small by (cbn; lia).
  rewrite Z.shiftr_div_pow2, Z.div_add, Z.div_small by (cbn; lia).
  cbn [Z.add]. now rewrite IH.
Qed.

(** The bytes of a value depend on its low [8 n] bits only. *)
Lemma le_bytes_ext (n : nat) (v w : Z) :
  (forall j, 0 <= j < 8 * Z.of_nat n -> Z.testbit v j = Z.testbit w j) ->
  le_bytes n v = le_bytes n w.
Proof.
  revert v w. induction n as [ | k IH]; intros v w Hbits; [ reflexivity | ].
  cbn [le_bytes]. f_equal.
  - apply Z.bits_inj'. intros j Hj. rewrite !testbit_uint8 by assumption.
    destruct (Z.ltb_spec j 8); cbn [andb]; [ | reflexivity ].
    apply Hbits. lia.
  - apply IH. intros j Hj. rewrite !Z.shiftr_spec by lia.
    apply Hbits. lia.
Qed.

Lemma forallb_rev (bs : list Z) :
  forallb is_uint8 bs = true -> forallb is_uint8 (rev bs) = true.
Proof.
  intros H. apply forallb_forall. intros x Hx. apply in_rev in Hx.
  revert x Hx. now apply forallb_forall.
Qed.

Lemma object_value_range (bs : list Z) :
  forallb is_uint8 bs = true ->
  0 <= object_value order bs < 2 ^ (8 * Z.of_nat (List.length bs)).
Proof.
  intros Hbs. destruct order; cbn [object_value].
  - now apply le_value_range.
  - rewrite <- length_rev. now apply le_value_range, forallb_rev.
Qed.

Lemma object_bytes_object_value (bs : list Z) :
  forallb is_uint8 bs = true ->
  object_bytes order (List.length bs) (object_value order bs) = bs.
Proof.
  intros Hbs. destruct order; cbn [object_value object_bytes].
  - now apply le_bytes_le_value.
  - rewrite <- length_rev, le_bytes_le_value by now apply forallb_rev.
    apply rev_involutive.
Qed.

Lemma to_signed_range (bits u : Z) :
  0 < bits -> 0 <= u < 2 ^ bits ->
  - 2 ^ (bits - 1) <= to_signed bits u < 2 ^ (bits - 1)
  /\ to_signed bits u mod 2 ^ bits = u.
Proof.
  intros Hb Hu. unfold to_signed.
  assert (Hp : 2 ^ bits = 2 * 2 ^ (bits - 1)).
  { rewrite <- Z.pow_succ_r by lia. f_equal; lia. }
  destruct (Z.ltb_spec u (2 ^ (bits - 1))) as [Hlt | Hge].
  - split; [ lia | now apply Z.mod_small ].
  - split; [ lia | ].
    replace (u - 2 ^ bits) with (u + (-1) * 2 ^ bits) by lia.
    rewrite Z.mod_add by lia. now apply Z.mod_small.
Qed.

(** A value and its two's complement reading have the same bytes. *)
Lemma object_bytes_to_signed (n : nat) (u : Z) :
  object_bytes order n (to_signed (8 * Z.of_nat n) u) = object_bytes order n u.
Proof.
  assert (Hle : le_bytes n (to_signed (8 * Z.of_nat n) u) = le_bytes n u).
  { apply le_bytes_ext. intros j Hj. unfold to_signed.
    destruct (u <? 2 ^ (8 * Z.of_nat n - 1)); [ reflexivity | ].
    assert (E : (u - 2 ^ (8 * Z.of_nat n)) mod 2 ^ (8 * Z.of_nat n)
                = u mod 2 ^ (8 * Z.of_nat n)).
    { replace (u - 2 ^ (8 * Z.of_nat n))
        with (u + (-1) * 2 ^ (8 * Z.of_nat n)) by lia.
      apply Z.mod_add. apply Z.pow_nonzero; lia. }
    apply (f_equal (fun z => Z.testbit z j)) in E.
    rewrite !Z.testbit_mod_pow2 in E by lia.
    replace (j <? 8 * Z.of_nat n) with true in E
      by (symmetry; apply Z.ltb_lt; lia).
    exact E. }
  destruct order; cbn [object_bytes]; now rewrite Hle.
Qed.

Lemma store_firstn (n : nat) (d : list Z) : store (firstn n d) d = d.
Proof.
  unfold store. rewrite length_firstn.
  destruct (Nat.le_ge_cases n (List.length d)) as [Hle | Hge].
  - rewrite Nat.min_l by assumption. apply firstn_skipn.
  - rewrite Nat.min_r, firstn_all2, skipn_all by assumption.
    apply app_nil_r.
Qed.

(** The leading bytes of the union of a well-formed message. *)
Lemma data_prefix (m : MyMessage) (n : nat) :
  well_formed m = true -> (n <= 26)%nat ->
  forallb is_uint8 (firstn n (data m)) = true
  /\ List.length (firstn n (data m)) = n.
Proof.
  intros Hwf Hn. apply well_formed_members in Hwf.
  destruct Hwf as (_ & _ & _ & _ & _ & _ & _ & Hb & Hlen).
  rewrite MAX_PAYLOAD_value in Hlen. split.
  - now apply forallb_firstn.
  - rewrite length_firstn. lia.
Qed.

End UnionViews.

Section UnionMembers.

Variable order : byte_order.

Lemma nth_uint8 (l : list Z) (i : nat) :
  forallb is_uint8 l = true -> 0 <= nth i l 0 < 2 ^ 8.
Proof.
  revert i. induction l as [ | x l IH]; intros i H.
  - destruct i; cbn; lia.
  - cbn [forallb] in H. apply andb_true_iff in H as [Hx Hl].
    destruct i as [ | i]; cbn [nth].
    + apply is_uint8_range in Hx. change (2 ^ 8) with 256. lia.
    + now apply IH.
Qed.

Lemma write_back (n : nat) (m : MyMessage) :
  well_formed m = true -> (n <= 26)%nat ->
  store (object_bytes order n (object_value order (firstn n (data m))))
        (data m) = data m.
Proof.
  intros Hwf Hn. destruct (data_prefix m n Hwf Hn) as [Hb Hl].
  pose proof (object_bytes_object_value order (firstn n (data m)) Hb) as H.
  rewrite Hl in H. rewrite H. apply store_firstn.
Qed.

(** The first four bytes of the union of a well-formed message. *)
Lemma data_bytes (m : MyMessage) :
  well_formed m = true ->
  exists b0 b1 b2 b3 rest,
    data m = b0 :: b1 :: b2 :: b3 :: rest
    /\ 0 <= b0 < 256 /\ 0 <= b1 < 256 /\ 0 <= b2 < 256 /\ 0 <= b3 < 256.
Proof.
  intros Hwf. apply well_formed_members in Hwf.
  destruct Hwf as (_ & _ & _ & _ & _ & _ & _ & Hb & Hlen).
  rewrite MAX_PAYLOAD_value in Hlen.
  destruct (data m) as [ | b0 [ | b1 [ | b2 [ | b3 rest]]]];
    cbn [List.length] in Hlen; try lia.
  cbn [forallb] in Hb.
  repeat (apply andb_true_iff in Hb; destruct Hb as [?H Hb]).
  exists b0, b1, b2, b3, rest.
  repeat split; try reflexivity; now apply is_uint8_range.
Qed.

End UnionMembers.

(** X10: in a well-formed message every member of the payload union reads
    a value of its C type: [bValue] and [fPrecision] a byte, [uiValue] and
    [ulValue] an unsigned 16- and 32-bit value, [iValue] and [lValue] the
    two's complement readings of the same bits. *)
Theorem union_members_range (order : byte_order) (m : MyMessage) :
  well_formed m = true ->
  0 <= bValue m < 2 ^ 8
  /\ 0 <= fPrecision m < 2 ^ 8
  /\ 0 <= uiValue order m < 2 ^ 16
  /\ (- 2 ^ 15 <= iValue order m < 2 ^ 15
      /\ iValue order m mod 2 ^ 16 = uiValue order m)
  /\ 0 <= ulValue order m < 2 ^ 32
  /\ (- 2 ^ 31 <= lValue order m < 2 ^ 31
      /\ lValue order m mod 2 ^ 32 = ulValue order m)
  /\ fValue order m = ulValue order m.
Proof.
  intros Hwf.
  destruct (data_prefix m 2 Hwf ltac:(lia)) as [Hb2 Hl2].
  destruct (data_prefix m 4 Hwf ltac:(lia)) as [Hb4 Hl4].
  pose proof (object_value_range order _ Hb2) as H2. rewrite Hl2 in H2.
  pose proof (object_value_range order _ Hb4) as H4. rewrite Hl4 in H4.
  change (8 * Z.of_nat 2) with 16 in H2. change (8 * Z.of_nat 4) with 32 in H4.
  apply well_formed_members in Hwf.
  destruct Hwf as (_ & _ & _ & _ & _ & _ & _ & Hb & _).
  unfold bValue, fPrecision, uiValue, iValue, ulValue, lValue, fValue.
  split; [ now apply nth_uint8 | ].
  split; [ now apply nth_uint8 | ].
  split; [ exact H2 | ].
  split; [ apply (to_signed_range 16); [ lia | exact H2 ] | ].
  split; [ exact H4 | ].
  split; [ apply (to_signed_range 32); [ lia | exact H4 ] | reflexivity ].
Qed.

Lemma union_members_range_witness :
  0 <= uiValue BigEndian (mkMyMessage 0 0 0 0 0 0 0 (repeat 255 26)) < 2 ^ 16
  /\ iValue BigEndian (mkMyMessage 0 0 0 0 0 0 0 (repeat 255 26)) = -1.
Proof.
  destruct (union_members_range
              BigEndian (mkMyMessage 0 0 0 0 0 0 0 (repeat 255 26))
              eq_refl) as (_ & _ & Hui & _).
  split; [ exact Hui | reflexivity ].
Defined.

(** X11: the members of the union share its bytes: [version] is the byte
    [bValue] reads and [sensorType] the next one; on a little-endian target
    [bValue] is the low byte of [uiValue] and [uiValue] the low half of
    [ulValue], on a big-endian target the high byte and the high half. *)
Theorem union_members_overlap (m : MyMessage) :
  well_formed m = true ->
  version m = bValue m
  /\ uiValue LittleEndian m = bValue m + 2 ^ 8 * sensorType m
  /\ uiValue BigEndian m = 2 ^ 8 * bValue m + sensorType m
  /\ uiValue LittleEndian m mod 2 ^ 8 = bValue m
  /\ uiValue BigEndian m / 2 ^ 8 = bValue m
  /\ ulValue LittleEndian m mod 2 ^ 16 = uiValue LittleEndian m
  /\ ulValue BigEndian m / 2 ^ 16 = uiValue BigEndian m.
Proof.
  intros Hwf.
  destruct (data_bytes m Hwf)
    as (b0 & b1 & b2 & b3 & rest & Hd & H0 & H1 & H2 & H3).
  unfold version, bValue, sensorType, uiValue, ulValue. rewrite Hd.
  cbn [nth firstn object_value rev app le_value].
  change (Z.shiftl 0 8) with 0. rewrite !Z.lor_0_r.
  rewrite !lor_shiftl_byte by (change (2 ^ 8) with 256; lia).
  change (2 ^ 8) with 256. change (2 ^ 16) with 65536.
  repeat match goal with |- _ /\ _ => split end; try lia.
  - symmetry. apply Z.mod_unique_pos with (q := b1); lia.
  - symmetry. apply Z.div_unique_pos with (r := b1); lia.
  - symmetry. apply Z.mod_unique_pos with (q := b2 + b3 * 256); lia.
  - symmetry. apply Z.div_unique_pos with (r := b3 + b2 * 256); lia.
Qed.

Lemma union_members_overlap_witness :
  let m := mkMyMessage 0 0 0 0 0 0 0 (210 :: 4 :: repeat 0 24) in
  uiValue LittleEndian m = 1234 /\ bValue m = 210 /\ sensorType m = 4
  /\ uiValue LittleEndian m = bValue m + 2 ^ 8 * sensorType m.
Proof.
  cbv zeta.
  split; [ reflexivity | split; [ reflexivity | split; [ reflexivity | ] ] ].
  destruct (union_members_overlap
              (mkMyMessage 0 0 0 0 0 0 0 (210 :: 4 :: repeat 0 24)) eq_refl)
    as (_ & Hle & _).
  exact Hle.
Defined.

(** X12: storing back the value a member reads leaves the union as it is,
    for the byte, the unsigned and the signed 16- and 32-bit members, in
    either byte order: the bytes and the values determine each other. *)
Theorem union_write_back (order : byte_order) (m : MyMessage) :
  well_formed m = true ->
  store [bValue m] (data m) = data m
  /\ store (object_bytes order 2 (uiValue order m)) (data m) = data m
  /\ store (object_bytes order 2 (iValue order m)) (data m) = data m
  /\ store (object_bytes order 4 (ulValue order m)) (data m) = data m
  /\ store (object_bytes order 4 (lValue order m)) (data m) = data m.
Proof.
  intros Hwf. unfold bValue, uiValue, iValue, ulValue, lValue.
  change 16 with (8 * Z.of_nat 2). change 32 with (8 * Z.of_nat 4).
  rewrite !object_bytes_to_signed.
  pose proof (write_back order 2 m Hwf ltac:(lia)) as H2.
  pose proof (write_back order 4 m Hwf ltac:(lia)) as H4.
  repeat match goal with |- _ /\ _ => split end; try assumption.
  destruct (data_bytes m Hwf) as (b0 & b1 & b2 & b3 & rest & Hd & _).
  rewrite Hd. reflexivity.
Qed.

Lemma union_write_back_witness :
  let m := mkMyMessage 0 0 0 0 0 0 0 (46 :: 251 :: repeat 7 24) in
  iValue LittleEndian m = -1234
  /\ store (object_bytes LittleEndian 2 (iValue LittleEndian m)) (data m)
     = data m.
Proof.
  cbv zeta. split; [ reflexivity | ].
  destruct (union_write_back
              LittleEndian
              (mkMyMessage 0 0 0 0 0 0 0 (46 :: 251 :: repeat 7 24)) eq_refl)
    as (_ & _ & Hi & _).
  exact Hi.
Defined.

(** * Edge cases and the arithmetic reading of an insertion *)

(** X13: the edge cases of a field in a [uint8_t] container: an empty
    field reads 0 and writing it changes nothing; the field of all eight
    bits is the container itself; a field that starts beyond bit 7 (and
    ends within the 15 value bits of an [int]) reads 0, and what is written
    to it is lost in the store. *)
Theorem BF_edge_fields (y x start len : Z) :
  0 <= y < 2 ^ 8 -> 0 <= start -> 0 <= len ->
  BF_GET y start 0 = 0
  /\ BF_SET y x start 0 = y
  /\ BF_GET y 0 8 = y
  /\ BF_SET y x 0 8 = uint8 x
  /\ (8 <= start -> start + len <= 15 ->
      BF_GET y start len = 0 /\ BF_SET y x start len = y).
Proof.
  intros Hy Hs Hl.
  repeat match goal with |- _ /\ _ => split end.
  - rewrite BF_GET_mod by lia. apply Z.mod_1_r.
  - apply Z.bits_inj'. intros j Hj.
    rewrite testbit_BF_SET, (testbit_byte y j Hy Hj) by lia.
    destruct (Z.leb_spec start j), (Z.ltb_spec j (start + 0)), (j <? 8);
      cbn [andb]; try reflexivity; lia.
  - now apply BF_GET_byte.
  - apply Z.bits_inj'. intros j Hj.
    rewrite testbit_BF_SET, testbit_uint8 by lia.
    destruct (Z.ltb_spec j 8) as [Hlt | Hge]; cbn [andb]; [ | reflexivity ].
    replace (0 <=? j) with true by (symmetry; apply Z.leb_le; lia).
    replace (j <? 0 + 8) with true by (symmetry; apply Z.ltb_lt; lia).
    cbn [andb]. f_equal. lia.
  - intros H8 _. split.
    + apply Z.bits_inj'. intros i Hi.
      rewrite testbit_BF_GET, Z.bits_0, (testbit_byte y (i + start)) by lia.
      replace (i + start <? 8) with false by (symmetry; apply Z.ltb_ge; lia).
      apply andb_false_r.
    + apply Z.bits_inj'. intros j Hj.
      rewrite testbit_BF_SET, (testbit_byte y j Hy Hj) by lia.
      destruct (Z.ltb_spec j 8) as [Hlt | Hge]; cbn [andb]; [ | reflexivity ].
      replace (start <=? j) with false by (symmetry; apply Z.leb_gt; lia).
      reflexivity.
Qed.

Lemma BF_edge_fields_witness :
  BF_SET 173 255 3 0 = 173 /\ BF_GET 173 9 4 = 0 /\ BF_SET 173 15 9 4 = 173.
Proof.
  destruct (BF_edge_fields 173 255 3 0
              ltac:(cbn; lia) ltac:(lia) ltac:(lia)) as (_ & Hempty & _).
  destruct (BF_edge_fields 173 15 9 4
              ltac:(cbn; lia) ltac:(lia) ltac:(lia))
    as (_ & _ & _ & _ & Hout).
  destruct (Hout ltac:(lia) ltac:(lia)) as [Hg Hset].
  exact (conj Hempty (conj Hg Hset)).
Defined.

(** X14: on a [uint8_t] container an insertion is an arithmetic update of
    the field alone: the new container is the old one plus the difference
    between the truncated new value and the old field value, at the weight
    of the field. *)
Theorem BF_SET_arithmetic (y x start len : Z) :
  0 <= start -> 0 <= len -> start + len <= 8 -> 0 <= y < 2 ^ 8 ->
  BF_SET y x start len
  = y + (x mod 2 ^ len - BF_GET y start len) * 2 ^ start.
Proof.
  intros Hs Hl Hfit Hy.
  set (rest := 8 - (start + len)).
  assert (Hsplit : forall z, 0 <= z < 2 ^ 8 ->
            z = BF_GET z 0 start + 2 ^ start * BF_GET z start len
                + 2 ^ (start + len) * BF_GET z (start + len) rest).
  { intros z Hz.
    pose proof (BF_GET_adjacent z 0 (start + len) rest) as H1.
    pose proof (BF_GET_adjacent z 0 start len) as H2.
    replace (start + len + rest) with 8 in H1 by (unfold rest; lia).
    rewrite (BF_GET_byte z Hz) in H1.
    replace (0 + (start + len)) with (start + len) in H1 by lia.
    replace (0 + start) with start in H2 by lia.
    rewrite H1, H2 at 1 by (unfold rest; lia). reflexivity. }
  pose proof (BF_SET_range y x start len) as Hy'.
  rewrite (Hsplit _ Hy') at 1.
  rewrite BF_GET_BF_SET_mod by assumption.
  rewrite !BF_GET_BF_SET_other by (unfold rest; lia).
  rewrite (Hsplit y Hy) at 3. ring.
Qed.

Lemma BF_SET_arithmetic_witness :
  BF_SET 146 5 3 5 = 146 + (5 - 18) * 8.
Proof.
  change (146 + (5 - 18) * 8)
    with (146 + (5 mod 2 ^ 5 - BF_GET 146 3 5) * 2 ^ 3).
  apply (BF_SET_arithmetic 146 5 3 5); cbn; lia.
Defined.
